(** * Offline template compiler: naming rules and dependency resolution

    A shallow embedding of [OfflineCompiler] and of the module-level helpers
    next to it, with the collaborators it is constructed from (directive
    normalizer, template parser, style compiler, view compiler, output
    emitter, XHR) kept abstract behind an interface. *)

From Stdlib Require Import String Ascii ZArith List Lia Bool.
From stdpp Require Import base tactics functions list.

Import ListNotations.
Local Open Scope string_scope.
Local Open Scope list_scope.

(** ** JavaScript string primitives used by the helpers *)

Module JsString.

(** [String.prototype.lastIndexOf] for a one-character needle: the greatest
    index holding [c], or [-1]. *)
Fixpoint lastIndexOf (s : string) (c : ascii) : Z :=
  match s with
  | EmptyString => (-1)%Z
  | String a rest =>
      let r := lastIndexOf rest c in
      if (r =? -1)%Z
      then (if Ascii.eqb a c then 0%Z else (-1)%Z)
      else (r + 1)%Z
  end.

Definition clamp (len i : Z) : Z := Z.max 0 (Z.min i len).

(** [String.prototype.substring(start, end)]: both indices are clamped to
    [0 .. length] and swapped when out of order; a missing [end] is the
    length. *)
Definition substring (s : string) (start : Z) (end_ : option Z) : string :=
  let len := Z.of_nat (String.length s) in
  let a := clamp len start in
  let b := match end_ with Some e => clamp len e | None => len end in
  let lo := Z.min a b in
  let hi := Z.max a b in
  String.substring (Z.to_nat lo) (Z.to_nat (hi - lo)) s.

(** A string without the character ['.']. *)
Definition NoDot (s : string) : Prop :=
  forall n, String.get n s <> Some "."%char.

End JsString.

(** ** Metadata *)

(** [CompileIdentifierMetadata] (and its subclass [CompileTypeMetadata]): the
    two fields this file reads and writes. *)
Record CompileIdentifierMetadata := mkIdentifier {
  name : string;
  moduleUrl : string
}.

Definition set_name (v : string) (id : CompileIdentifierMetadata) :=
  {| name := v; moduleUrl := moduleUrl id |}.

Definition set_moduleUrl (v : string) (id : CompileIdentifierMetadata) :=
  {| name := name id; moduleUrl := v |}.

Record CompileTemplateMetadata := mkTemplate {
  template_source : string
}.

Record CompileDirectiveMetadata := mkDirective {
  type : CompileIdentifierMetadata;
  isComponent : bool;
  selector : string;
  template : CompileTemplateMetadata
}.

(** ** Naming rules *)

Definition _splitSuffix (path : string) : string * string :=
  let lastDot := JsString.lastIndexOf path "."%char in
  if negb (lastDot =? -1)%Z
  then (JsString.substring path 0 (Some lastDot), JsString.substring path lastDot None)
  else (path, "").

Definition _ngfactoryModuleUrl (comp : CompileIdentifierMetadata) : string :=
  let urlWithSuffix := _splitSuffix (moduleUrl comp) in
  fst urlWithSuffix ++ ".ngfactory" ++ snd urlWithSuffix.

Definition _componentFactoryName (comp : CompileIdentifierMetadata) : string :=
  name comp ++ "NgFactory".

Definition _stylesModuleUrl (stylesheetUrl : string) (shim : bool) (suffix : string) : string :=
  if shim then stylesheetUrl ++ ".shim" ++ suffix else stylesheetUrl ++ suffix.

(** ** Placeholders

    The style and view compilers hand out [CompileIdentifierMetadata] objects
    as placeholders; the statements they return keep references to them and the
    compiler fills them in by assignment. A placeholder is therefore a
    location in a store, and two dependencies may name the same location. *)

Definition loc := nat.

Definition Heap := loc -> CompileIdentifierMetadata.

(** ** Exceptions

    [BaseException] is what this file throws itself; [Thrown] stands for
    whatever a collaborator throws, or for the reason of a rejected promise. *)

Inductive exn :=
| BaseException (message : string)
| Thrown (reason : string).

Inductive outcome (A : Type) :=
| Return (a : A)
| Throw (e : exn).

Arguments Return {A} a.
Arguments Throw {A} e.

(** ** The output AST ([import * as o from './output/output_ast']) *)

Module o.

Inductive TypeModifier := Const.

Inductive StmtModifier := Final | Private.

(** The builders of output_ast.ts that [compileTemplates] calls; an absent
    optional argument ([null]) is [None]. *)
Class Ast := {
  Statement : Type;
  Expression : Type;
  Type_ : Type;
  variable : string -> Expression;
  literal : string -> Expression;
  importExpr : CompileIdentifierMetadata -> option (list Type_) -> Expression;
  importType :
    CompileIdentifierMetadata -> option (list Type_) -> option (list TypeModifier) -> Type_;
  instantiate : Expression -> list Expression -> option Type_ -> Expression;
  set : Expression -> Expression -> Expression;
  toDeclStmt : Expression -> option Type_ -> option (list StmtModifier) -> Statement
}.

End o.

(** ** Results of the style and view compilers *)

Module StylesCompileDependency.

Record t := mk {
  moduleUrl : string;
  isShimmed : bool;
  valuePlaceholder : loc
}.

End StylesCompileDependency.

Module StylesCompileResult.

Record t `{o.Ast} := mk {
  statements : list o.Statement;
  stylesVar : string;
  dependencies : list StylesCompileDependency.t
}.

End StylesCompileResult.

(** The dependencies of a view: the two classes [_resolveViewStatements]
    tests for with [instanceof], and any other object. *)
Inductive ViewDependency :=
| ViewFactoryDependency (comp : CompileDirectiveMetadata) (placeholder : loc)
| ComponentFactoryDependency (comp : CompileIdentifierMetadata) (placeholder : loc)
| OtherDependency (placeholder : loc).

Module ViewCompileResult.

Record t `{o.Ast} := mk {
  statements : list o.Statement;
  viewFactoryVar : string;
  dependencies : list ViewDependency
}.

End ViewCompileResult.

(** ** What the compiler returns *)

Module SourceModule.

Record t := mk {
  moduleUrl : string;
  source : string
}.

End SourceModule.

Module StyleSheetSourceWithImports.

Record t := mk {
  source : SourceModule.t;
  importedUrls : list string
}.

End StyleSheetSourceWithImports.

(** ** Collaborators

    The constructor arguments of [OfflineCompiler], and the two functions
    imported from compile_metadata.ts and util.ts. The compilers and the
    parser may allocate and fill placeholders, so they transform the store;
    the emitter reads it; [xhr_get] and [directiveNormalizer_normalizeDirective]
    are the settled promises of [XHR.get] and [normalizeDirective]. *)
Class Collaborators `{o.Ast} := {
  TemplateAst : Type;
  CompilePipeMetadata : Type;
  assetUrl : string -> string -> string;
  createHostComponentMeta :
    CompileIdentifierMetadata -> string -> outcome CompileDirectiveMetadata;
  directiveNormalizer_normalizeDirective :
    CompileDirectiveMetadata -> outcome CompileDirectiveMetadata;
  styleCompiler_compileComponent :
    CompileDirectiveMetadata -> Heap -> outcome StylesCompileResult.t * Heap;
  styleCompiler_compileStylesheet :
    string -> string -> bool -> Heap -> outcome StylesCompileResult.t * Heap;
  templateParser_parse :
    CompileDirectiveMetadata -> string -> list CompileDirectiveMetadata ->
    list CompilePipeMetadata -> string -> Heap -> outcome (list TemplateAst) * Heap;
  viewCompiler_compileComponent :
    CompileDirectiveMetadata -> list TemplateAst -> o.Expression ->
    list CompilePipeMetadata -> Heap -> outcome ViewCompileResult.t * Heap;
  outputEmitter_emitStatements :
    string -> list o.Statement -> list string -> Heap -> outcome string;
  xhr_get : string -> outcome string
}.

Module NormalizedComponentWithViewDirectives.

Record t `{Collaborators} := mk {
  component : CompileDirectiveMetadata;
  directives : list CompileDirectiveMetadata;
  pipes : list CompilePipeMetadata
}.

End NormalizedComponentWithViewDirectives.

Section Compiler.

Context `{collaborators : Collaborators}.

(** ** The compiler's monad: a store, a log of collaborator calls, exceptions *)

Inductive Call :=
| CreateHostComponentMeta (componentType : CompileIdentifierMetadata) (componentSelector : string)
| NormalizeDirective (directive : CompileDirectiveMetadata)
| StyleCompileComponent (compMeta : CompileDirectiveMetadata)
| StyleCompileStylesheet (stylesheetUrl cssText : string) (shim : bool)
| TemplateParse (compMeta : CompileDirectiveMetadata) (templateText : string)
    (directives : list CompileDirectiveMetadata) (pipes : list CompilePipeMetadata)
    (templateUrl : string)
| ViewCompileComponent (compMeta : CompileDirectiveMetadata) (parsed : list TemplateAst)
    (styles : o.Expression) (pipes : list CompilePipeMetadata)
| EmitStatements (moduleUrl : string) (statements : list o.Statement)
    (exportedVars : list string)
| XhrGet (url : string).

Record World := mkWorld {
  heap : Heap;
  calls : list Call
}.

Definition M (A : Type) : Type := World -> outcome A * World.

Definition ret {A} (a : A) : M A := fun w => (Return a, w).

Definition throw {A} (e : exn) : M A := fun w => (Throw e, w).

Definition bind {A B} (m : M A) (k : A -> M B) : M B :=
  fun w => match m w with
           | (Return a, w') => k a w'
           | (Throw e, w') => (Throw e, w')
           end.

(** A call that transforms the store. *)
Definition invoke {A} (c : Call) (f : Heap -> outcome A * Heap) : M A :=
  fun w => let (r, h) := f (heap w) in (r, {| heap := h; calls := calls w ++ [c] |}).

(** A call that only reads it. *)
Definition consult {A} (c : Call) (f : Heap -> outcome A) : M A :=
  invoke c (fun h => (f h, h)).

(** An assignment to fields of the object at a location. *)
Definition update (f : Heap -> Heap) : M unit :=
  fun w => (Return tt, {| heap := f (heap w); calls := calls w |}).

Definition assign_name (l : loc) (v : string) : M unit :=
  update (alter (set_name v) l).

Definition assign_moduleUrl (l : loc) (v : string) : M unit :=
  update (alter (set_moduleUrl v) l).

Local Notation "x <- m ;; k" := (bind m (fun x => k))
  (at level 20, m at level 99, k at level 200, only parsing).
Local Notation "' pat <- m ;; k" := (bind m (fun pat => k))
  (at level 20, pat pattern, m at level 99, k at level 200, only parsing).

(** A loop over an array whose body updates the local variables [b]. *)
Fixpoint foldM {A B} (body : B -> A -> M B) (l : list A) (b : B) : M B :=
  match l with
  | [] => ret b
  | x :: rest => b' <- body b x ;; foldM body rest b'
  end.

(** [Array.prototype.forEach]. *)
Definition forEach {A} (l : list A) (body : A -> M unit) : M unit :=
  foldM (fun _ x => body x) l tt.

(** ** Module-level helpers *)

Definition _assertComponent (meta : CompileDirectiveMetadata) : M unit :=
  if negb (isComponent meta)
  then throw (BaseException
                ("Could not compile '" ++ name (type meta) ++ "' because it is not a component."))
  else ret tt.

Definition _resolveViewStatements (compileResult : ViewCompileResult.t) : M (list o.Statement) :=
  _ <- forEach (ViewCompileResult.dependencies compileResult) (fun dep =>
    match dep with
    | ViewFactoryDependency comp placeholder =>
        assign_moduleUrl placeholder (_ngfactoryModuleUrl (type comp))
    | ComponentFactoryDependency comp placeholder =>
        _ <- assign_name placeholder (_componentFactoryName comp) ;;
        assign_moduleUrl placeholder (_ngfactoryModuleUrl comp)
    | OtherDependency _ => ret tt
    end) ;;
  ret (ViewCompileResult.statements compileResult).

Definition _resolveStyleStatements (containingModuleUrl : string)
    (compileResult : StylesCompileResult.t) : M (list o.Statement) :=
  let containingSuffix := snd (_splitSuffix containingModuleUrl) in
  _ <- forEach (StylesCompileResult.dependencies compileResult) (fun dep =>
    assign_moduleUrl (StylesCompileDependency.valuePlaceholder dep)
      (_stylesModuleUrl (StylesCompileDependency.moduleUrl dep)
         (StylesCompileDependency.isShimmed dep) containingSuffix)) ;;
  ret (StylesCompileResult.statements compileResult).

Definition _COMPONENT_FACTORY_IDENTIFIER : CompileIdentifierMetadata :=
  {| name := "ComponentFactory";
     moduleUrl := assetUrl "core" "linker/component_factory" |}.

(** ** [OfflineCompiler] *)

Definition normalizeDirectiveMetadata (directive : CompileDirectiveMetadata)
    : M CompileDirectiveMetadata :=
  consult (NormalizeDirective directive)
    (fun _ => directiveNormalizer_normalizeDirective directive).

Definition _codegenSourceModule (moduleUrl : string) (statements : list o.Statement)
    (exportedVars : list string) : M SourceModule.t :=
  source <- consult (EmitStatements moduleUrl statements exportedVars)
              (outputEmitter_emitStatements moduleUrl statements exportedVars) ;;
  ret (SourceModule.mk moduleUrl source).

Definition _codgenStyles (inputUrl : string) (shim : bool) (suffix : string)
    (stylesCompileResult : StylesCompileResult.t) : M SourceModule.t :=
  _codegenSourceModule (_stylesModuleUrl inputUrl shim suffix)
    (StylesCompileResult.statements stylesCompileResult)
    [StylesCompileResult.stylesVar stylesCompileResult].

(** [targetStatements] is the caller's array; the extended array is returned
    next to the view-factory name. *)
Definition _compileComponent (compMeta : CompileDirectiveMetadata)
    (directives : list CompileDirectiveMetadata) (pipes : list CompilePipeMetadata)
    (targetStatements : list o.Statement) : M (string * list o.Statement) :=
  styleResult <- invoke (StyleCompileComponent compMeta)
                   (styleCompiler_compileComponent compMeta) ;;
  parsedTemplate <- invoke (TemplateParse compMeta (template_source (template compMeta))
                              directives pipes (name (type compMeta)))
                      (templateParser_parse compMeta (template_source (template compMeta))
                         directives pipes (name (type compMeta))) ;;
  viewResult <- invoke (ViewCompileComponent compMeta parsedTemplate
                          (o.variable (StylesCompileResult.stylesVar styleResult)) pipes)
                  (viewCompiler_compileComponent compMeta parsedTemplate
                     (o.variable (StylesCompileResult.stylesVar styleResult)) pipes) ;;
  styleStatements <- _resolveStyleStatements (moduleUrl (type compMeta)) styleResult ;;
  let targetStatements := targetStatements ++ styleStatements in
  viewStatements <- _resolveViewStatements viewResult ;;
  let targetStatements := targetStatements ++ viewStatements in
  ret (ViewCompileResult.viewFactoryVar viewResult, targetStatements).

(** The declaration of the component factory pushed by [compileTemplates]. *)
Definition componentFactoryDecl (compMeta : CompileDirectiveMetadata)
    (compFactoryVar hostViewFactoryVar : string) : o.Statement :=
  o.toDeclStmt
    (o.set (o.variable compFactoryVar)
       (o.instantiate
          (o.importExpr _COMPONENT_FACTORY_IDENTIFIER
             (Some [o.importType (type compMeta) None None]))
          [o.literal (selector compMeta); o.variable hostViewFactoryVar;
           o.importExpr (type compMeta) None]
          (Some (o.importType _COMPONENT_FACTORY_IDENTIFIER
                   (Some [o.importType (type compMeta) None None])
                   (Some [o.Const])))))
    None (Some [o.Final]).

(** The callback of [components.forEach] in [compileTemplates]; the local
    arrays [statements] and [exportedVars] are threaded through. *)
Definition compileTemplates_each (locals : list o.Statement * list string)
    (componentWithDirs : NormalizedComponentWithViewDirectives.t)
    : M (list o.Statement * list string) :=
  let '(statements, exportedVars) := locals in
  let compMeta := NormalizedComponentWithViewDirectives.component componentWithDirs in
  _ <- _assertComponent compMeta ;;
  '(compViewFactoryVar, statements) <-
    _compileComponent compMeta
      (NormalizedComponentWithViewDirectives.directives componentWithDirs)
      (NormalizedComponentWithViewDirectives.pipes componentWithDirs) statements ;;
  let exportedVars := exportedVars ++ [compViewFactoryVar] in
  hostMeta <- consult (CreateHostComponentMeta (type compMeta) (selector compMeta))
                (fun _ => createHostComponentMeta (type compMeta) (selector compMeta)) ;;
  '(hostViewFactoryVar, statements) <- _compileComponent hostMeta [compMeta] [] statements ;;
  let compFactoryVar := _componentFactoryName (type compMeta) in
  let statements :=
    statements ++ [componentFactoryDecl compMeta compFactoryVar hostViewFactoryVar] in
  let exportedVars := exportedVars ++ [compFactoryVar] in
  ret (statements, exportedVars).

Definition compileTemplates (components : list NormalizedComponentWithViewDirectives.t)
    : M SourceModule.t :=
  match components with
  | [] => throw (BaseException "No components given")
  | first :: _ =>
      let moduleUrl :=
        _ngfactoryModuleUrl (type (NormalizedComponentWithViewDirectives.component first)) in
      '(statements, exportedVars) <- foldM compileTemplates_each components ([], []) ;;
      _codegenSourceModule moduleUrl statements exportedVars
  end.

(** The callback of [compileResult.dependencies.forEach] in
    [loadAndCompileStylesheet], with the local array [importedUrls]. *)
Definition loadAndCompileStylesheet_each (suffix : string) (importedUrls : list string)
    (dep : StylesCompileDependency.t) : M (list string) :=
  let importedUrls := importedUrls ++ [StylesCompileDependency.moduleUrl dep] in
  _ <- assign_moduleUrl (StylesCompileDependency.valuePlaceholder dep)
         (_stylesModuleUrl (StylesCompileDependency.moduleUrl dep)
            (StylesCompileDependency.isShimmed dep) suffix) ;;
  ret importedUrls.

(** The promise returned is modelled by its settlement: [Return] when it is
    fulfilled, [Throw] when it is rejected. *)
Definition loadAndCompileStylesheet (stylesheetUrl : string) (shim : bool) (suffix : string)
    : M StyleSheetSourceWithImports.t :=
  cssText <- consult (XhrGet stylesheetUrl) (fun _ => xhr_get stylesheetUrl) ;;
  compileResult <- invoke (StyleCompileStylesheet stylesheetUrl cssText shim)
                     (styleCompiler_compileStylesheet stylesheetUrl cssText shim) ;;
  importedUrls <- foldM (loadAndCompileStylesheet_each suffix)
                    (StylesCompileResult.dependencies compileResult) [] ;;
  source <- _codgenStyles stylesheetUrl shim suffix compileResult ;;
  ret (StyleSheetSourceWithImports.mk source importedUrls).

End Compiler.

(** ** The store after the resolution loops

    The store each [forEach] over dependencies leaves behind, as a function
    of the store it starts from. *)

Definition resolveStyleDependency (suffix : string) (h : Heap)
    (dep : StylesCompileDependency.t) : Heap :=
  alter (set_moduleUrl (_stylesModuleUrl (StylesCompileDependency.moduleUrl dep)
                          (StylesCompileDependency.isShimmed dep) suffix))
    (StylesCompileDependency.valuePlaceholder dep) h.

Definition resolveViewDependency (h : Heap) (dep : ViewDependency) : Heap :=
  match dep with
  | ViewFactoryDependency comp placeholder =>
      alter (set_moduleUrl (_ngfactoryModuleUrl (type comp))) placeholder h
  | ComponentFactoryDependency comp placeholder =>
      alter (set_moduleUrl (_ngfactoryModuleUrl comp)) placeholder
        (alter (set_name (_componentFactoryName comp)) placeholder h)
  | OtherDependency _ => h
  end.

(** The placeholder [_resolveViewStatements] assigns to for a dependency, if
    it assigns at all. *)
Definition assignedPlaceholder (dep : ViewDependency) : option loc :=
  match dep with
  | ViewFactoryDependency _ placeholder => Some placeholder
  | ComponentFactoryDependency _ placeholder => Some placeholder
  | OtherDependency _ => None
  end.

(** The arguments of the emitter calls in a log, oldest first. *)
Fixpoint emitted `{Collaborators} (log : list Call)
    : list (string * list o.Statement * list string) :=
  match log with
  | [] => []
  | EmitStatements moduleUrl statements exportedVars :: rest =>
      (moduleUrl, statements, exportedVars) :: emitted rest
  | _ :: rest => emitted rest
  end.

(** A computation that never calls the emitter. *)
Definition silent `{Collaborators} {A} (m : M A) : Prop :=
  forall w, emitted (calls (snd (m w))) = emitted (calls w).

(** [v] is a view-factory name the view compiler returned for the component's
    own metadata and pipes. *)
Definition viewFactoryNameOf `{Collaborators}
    (componentWithDirs : NormalizedComponentWithViewDirectives.t) (v : string) : Prop :=
  exists parsedTemplate styles h viewResult h',
    viewCompiler_compileComponent
      (NormalizedComponentWithViewDirectives.component componentWithDirs)
      parsedTemplate styles
      (NormalizedComponentWithViewDirectives.pipes componentWithDirs) h
    = (Return viewResult, h') /\
    v = ViewCompileResult.viewFactoryVar viewResult.

(** Two names per component: the given view-factory name, then the
    component-factory name. *)
Definition exportedNames `{Collaborators}
    (components : list NormalizedComponentWithViewDirectives.t)
    (viewFactoryVars : list string) : list string :=
  concat (zip_with
            (fun componentWithDirs v =>
               [v; _componentFactoryName
                     (type (NormalizedComponentWithViewDirectives.component componentWithDirs))])
            components viewFactoryVars).

(** No collaborator of [compileTemplates] throws. *)
Definition neverThrow `{Collaborators} : Prop :=
  (forall componentType componentSelector, exists hostMeta,
      createHostComponentMeta componentType componentSelector = Return hostMeta) /\
  (forall compMeta h, exists result h',
      styleCompiler_compileComponent compMeta h = (Return result, h')) /\
  (forall compMeta templateText directives pipes templateUrl h, exists result h',
      templateParser_parse compMeta templateText directives pipes templateUrl h
      = (Return result, h')) /\
  (forall compMeta parsedTemplate styles pipes h, exists result h',
      viewCompiler_compileComponent compMeta parsedTemplate styles pipes h
      = (Return result, h')) /\
  (forall moduleUrl statements exportedVars h, exists source,
      outputEmitter_emitStatements moduleUrl statements exportedVars h = Return source).

(** [e] is an exception that a collaborator of [compileTemplates] throws on
    some input. *)
Definition thrownByCollaborator `{Collaborators} (e : exn) : Prop :=
  (exists componentType componentSelector,
      createHostComponentMeta componentType componentSelector = Throw e) \/
  (exists compMeta h h', styleCompiler_compileComponent compMeta h = (Throw e, h')) \/
  (exists compMeta templateText directives pipes templateUrl h h',
      templateParser_parse compMeta templateText directives pipes templateUrl h
      = (Throw e, h')) \/
  (exists compMeta parsedTemplate styles pipes h h',
      viewCompiler_compileComponent compMeta parsedTemplate styles pipes h = (Throw e, h')) \/
  (exists moduleUrl statements exportedVars h,
      outputEmitter_emitStatements moduleUrl statements exportedVars h = Throw e).

(** [block] is what one entry of [compileTemplates] adds to the statements:
    some statements, then the declaration of the component factory, which
    names a view factory that the view compiler returned for the host
    metadata of the component, compiled without pipes. *)
Definition componentBlock `{Collaborators}
    (componentWithDirs : NormalizedComponentWithViewDirectives.t)
    (block : list o.Statement) : Prop :=
  let compMeta := NormalizedComponentWithViewDirectives.component componentWithDirs in
  exists body hostMeta parsedTemplate styles h hostView h',
    createHostComponentMeta (type compMeta) (selector compMeta) = Return hostMeta /\
    viewCompiler_compileComponent hostMeta parsedTemplate styles [] h = (Return hostView, h') /\
    block = body ++ [componentFactoryDecl compMeta (_componentFactoryName (type compMeta))
                       (ViewCompileResult.viewFactoryVar hostView)].

(** ** A small instance of the collaborators

    Statements and expressions are rendered as text. The style compiler
    reports [styleDeps] and the view compiler [viewDeps] for whatever they are
    given; a [strict] parser rejects the template ["<<"]; the fetch of
    ["missing.css"] is rejected. *)

Module Demo.

#[local] Instance ast : o.Ast := {|
  o.Statement := string;
  o.Expression := string;
  o.Type_ := string;
  o.variable := fun n => n;
  o.literal := fun s => ("'" ++ s ++ "'")%string;
  o.importExpr := fun id _ => name id;
  o.importType := fun id _ _ => name id;
  o.instantiate := fun e args _ =>
    ("new " ++ e ++ "(" ++ String.concat ", " args ++ ")")%string;
  o.set := fun lhs rhs => (lhs ++ " = " ++ rhs)%string;
  o.toDeclStmt := fun e _ _ => ("const " ++ e ++ ";")%string
|}.

Definition hostMeta (componentType : CompileIdentifierMetadata) (componentSelector : string)
    : CompileDirectiveMetadata :=
  {| type := {| name := (name componentType ++ "_Host")%string;
                moduleUrl := moduleUrl componentType |};
     isComponent := true;
     selector := "*";
     template := {| template_source := ("<" ++ componentSelector ++ "/>")%string |} |}.

Definition styles (styleDeps : list StylesCompileDependency.t)
    (owner : string) (h : Heap) : outcome StylesCompileResult.t * Heap :=
  (Return {| StylesCompileResult.statements := [("const styles_" ++ owner ++ " = [];")%string];
             StylesCompileResult.stylesVar := ("styles_" ++ owner)%string;
             StylesCompileResult.dependencies := styleDeps |}, h).

Definition parse (strict : bool) (templateText : string) (h : Heap)
    : outcome (list string) * Heap :=
  if strict && String.eqb templateText "<<"
  then (Throw (Thrown "Template parse errors"), h)
  else (Return [templateText], h).

Definition view (viewDeps : list ViewDependency) (compMeta : CompileDirectiveMetadata)
    (h : Heap) : outcome ViewCompileResult.t * Heap :=
  (Return {| ViewCompileResult.statements :=
               [("function viewFactory_" ++ name (type compMeta) ++ "0() {}")%string];
             ViewCompileResult.viewFactoryVar :=
               ("viewFactory_" ++ name (type compMeta) ++ "0")%string;
             ViewCompileResult.dependencies := viewDeps |}, h).

#[local] Instance collaborators (strict : bool) (styleDeps : list StylesCompileDependency.t)
    (viewDeps : list ViewDependency) : Collaborators := {|
  TemplateAst := string;
  CompilePipeMetadata := string;
  assetUrl := fun pkg path => ("asset:@angular/lib/" ++ pkg ++ "/src/" ++ path)%string;
  createHostComponentMeta := fun ty sel => Return (hostMeta ty sel);
  directiveNormalizer_normalizeDirective := fun directive => Return directive;
  styleCompiler_compileComponent := fun compMeta => styles styleDeps (name (type compMeta));
  styleCompiler_compileStylesheet := fun url _ _ => styles styleDeps url;
  templateParser_parse := fun _ templateText _ _ _ => parse strict templateText;
  viewCompiler_compileComponent := fun compMeta _ _ _ => view viewDeps compMeta;
  outputEmitter_emitStatements := fun _ statements exportedVars _ =>
    Return (String.concat "; " statements ++ " export {"
              ++ String.concat ", " exportedVars ++ "}")%string;
  xhr_get := fun url =>
    if String.eqb url "missing.css"
    then Throw (Thrown "404")
    else Return ("/* " ++ url ++ " */")%string
|}.

(** An empty store: every placeholder still has an empty name and URL. *)
Definition h0 : Heap := fun _ => {| name := ""; moduleUrl := "" |}.

Definition w0 {strict styleDeps viewDeps}
    : @World ast (collaborators strict styleDeps viewDeps) :=
  {| heap := h0; calls := [] |}.

Definition app : CompileDirectiveMetadata :=
  {| type := {| name := "App"; moduleUrl := "src/app.ts" |};
     isComponent := true;
     selector := "my-app";
     template := {| template_source := "<h1>hi</h1>" |} |}.

Definition hero : CompileDirectiveMetadata :=
  {| type := {| name := "Hero"; moduleUrl := "src/hero.foo" |};
     isComponent := true;
     selector := "hero";
     template := {| template_source := "<b>hero</b>" |} |}.

Definition highlight : CompileDirectiveMetadata :=
  {| type := {| name := "Highlight"; moduleUrl := "src/highlight.ts" |};
     isComponent := false;
     selector := "[highlight]";
     template := {| template_source := "" |} |}.

Definition broken : CompileDirectiveMetadata :=
  {| type := {| name := "Broken"; moduleUrl := "src/broken.ts" |};
     isComponent := true;
     selector := "broken";
     template := {| template_source := "<<" |} |}.

Definition entry {strict styleDeps viewDeps} (compMeta : CompileDirectiveMetadata)
    : @NormalizedComponentWithViewDirectives.t ast (collaborators strict styleDeps viewDeps) :=
  {| NormalizedComponentWithViewDirectives.component := compMeta;
     NormalizedComponentWithViewDirectives.directives := [];
     NormalizedComponentWithViewDirectives.pipes := [] |}.

(** Collaborators that report no dependencies. *)
Definition plain : Collaborators := collaborators false [] [].

Definition strict : Collaborators := collaborators true [] [].

Definition bCss : StylesCompileDependency.t :=
  {| StylesCompileDependency.moduleUrl := "b.css";
     StylesCompileDependency.isShimmed := false;
     StylesCompileDependency.valuePlaceholder := 0 |}.

Definition cCss : StylesCompileDependency.t :=
  {| StylesCompileDependency.moduleUrl := "c.css";
     StylesCompileDependency.isShimmed := true;
     StylesCompileDependency.valuePlaceholder := 1 |}.

Definition viewDeps : list ViewDependency :=
  [ViewFactoryDependency hero 2; ComponentFactoryDependency (type app) 3; OtherDependency 4].

Definition appView : ViewCompileResult.t :=
  {| ViewCompileResult.statements := ["function viewFactory_App0() {}"%string];
     ViewCompileResult.viewFactoryVar := "viewFactory_App0";
     ViewCompileResult.dependencies := viewDeps |}.

Definition heroStyles : StylesCompileResult.t :=
  {| StylesCompileResult.statements := ["const styles_Hero = [];"%string];
     StylesCompileResult.stylesVar := "styles_Hero";
     StylesCompileResult.dependencies := [bCss; cCss] |}.

(** Collaborators that report two stylesheet imports and three view
    dependencies, each with a placeholder of its own. *)
Definition linked : Collaborators := collaborators false [bCss; cCss] viewDeps.

(** Two stylesheet dependencies that share one placeholder. *)
Definition shared : Collaborators :=
  collaborators false
    [bCss; {| StylesCompileDependency.moduleUrl := "c.css";
              StylesCompileDependency.isShimmed := true;
              StylesCompileDependency.valuePlaceholder := 0 |}] [].

End Demo.

(** * Properties *)

(** ** Strings *)

Section Strings.

Import JsString.
Local Open Scope string_scope.

Lemma lastIndexOf_range s c :
  lastIndexOf s c = (-1)%Z \/ (0 <= lastIndexOf s c < Z.of_nat (String.length s))%Z.
Proof.
  induction s as [|a s IH]; simpl; [now left|].
  destruct (Z.eqb_spec (lastIndexOf s c) (-1)) as [E|E].
  - destruct (Ascii.eqb a c); [right; lia | now left].
  - right. destruct IH as [IH|IH]; [contradiction | lia].
Qed.

Lemma lastIndexOf_absent s c :
  lastIndexOf s c = (-1)%Z <-> (forall n, String.get n s <> Some c).
Proof.
  induction s as [|a s IH]; simpl.
  - split; [intros _ n; destruct n; discriminate | reflexivity].
  - destruct (Z.eqb_spec (lastIndexOf s c) (-1)) as [E|E].
    + destruct (Ascii.eqb_spec a c) as [->|Hac].
      * split; [discriminate | intros H; now destruct (H 0)].
      * split; [|reflexivity]. intros _ [|n]; simpl.
        -- congruence.
        -- now apply IH.
    + split.
      * pose proof (lastIndexOf_range s c). lia.
      * intros H. exfalso. apply E, IH. intros n. apply (H (S n)).
Qed.

Lemma NoDot_lastIndexOf s : NoDot s <-> lastIndexOf s "."%char = (-1)%Z.
Proof. unfold NoDot. now rewrite lastIndexOf_absent. Qed.

Lemma lastIndexOf_last base c ext :
  lastIndexOf ext c = (-1)%Z ->
  lastIndexOf (base ++ String c ext) c = Z.of_nat (String.length base).
Proof.
  intros Hext. induction base as [|a base IH]; simpl.
  - rewrite Hext. simpl. now rewrite Ascii.eqb_refl.
  - rewrite IH. destruct (Z.eqb_spec (Z.of_nat (String.length base)) (-1)); lia.
Qed.

Lemma substring_whole s : String.substring 0 (String.length s) s = s.
Proof. induction s; simpl; congruence. Qed.

Lemma substring_head a b : String.substring 0 (String.length a) (a ++ b) = a.
Proof.
  induction a as [|x a IH]; simpl.
  - now destruct b.
  - now rewrite IH.
Qed.

Lemma substring_tail a b :
  String.substring (String.length a) (String.length b) (a ++ b) = b.
Proof. induction a as [|x a IH]; simpl; [apply substring_whole | exact IH]. Qed.

Lemma string_length_app a b : String.length (a ++ b) = String.length a + String.length b.
Proof. induction a; simpl; congruence. Qed.

Lemma splitSuffix_dot base ext :
  NoDot ext -> _splitSuffix (base ++ "." ++ ext) = (base, "." ++ ext).
Proof.
  intros Hext. apply NoDot_lastIndexOf in Hext.
  unfold _splitSuffix. change ("." ++ ext) with (String "."%char ext).
  rewrite (lastIndexOf_last _ _ _ Hext).
  destruct (Z.eqb_spec (Z.of_nat (String.length base)) (-1)) as [E|_]; [lia|]. simpl negb. cbv iota.
  unfold substring, clamp. rewrite string_length_app. simpl String.length.
  f_equal.
  - replace (Z.to_nat (Z.min _ _)) with 0 by lia.
    replace (Z.to_nat _) with (String.length base) by lia.
    apply substring_head.
  - replace (Z.to_nat (Z.min _ _)) with (String.length base) by lia.
    replace (Z.to_nat _) with (String.length (String "."%char ext)) by (simpl; lia).
    apply substring_tail.
Qed.

Lemma splitSuffix_nodot path : NoDot path -> _splitSuffix path = (path, "").
Proof.
  intros H. apply NoDot_lastIndexOf in H. unfold _splitSuffix. now rewrite H.
Qed.

Lemma NoDot_cons a s : a <> "."%char -> NoDot s -> NoDot (String a s).
Proof. intros Ha Hs [|n]; simpl; [congruence | apply Hs]. Qed.

(** Every path either has no dot, or splits at its last dot. *)
Lemma last_dot_split path :
  NoDot path \/ exists base ext, path = base ++ "." ++ ext /\ NoDot ext.
Proof.
  induction path as [|a path IH].
  - left. intros [|n]; discriminate.
  - destruct IH as [Hno | (base & ext & -> & Hext)].
    + destruct (Ascii.eqb_spec a "."%char) as [->|Ha].
      * right. now exists "", path.
      * left. now apply NoDot_cons.
    + right. now exists (String a base), ext.
Qed.

(** C7: for every module URL, the factory module URL is the part before the
    last dot, then [.ngfactory], then the suffix starting at the last dot; a
    URL without a dot has the empty suffix and only gains [.ngfactory]. So
    [a/b.ts] gives [a/b.ngfactory.ts] and [a/b] gives [a/b.ngfactory]. *)
Theorem ngfactoryModuleUrl_shape :
  (forall comp : CompileIdentifierMetadata,
      exists base suffix,
        _splitSuffix (moduleUrl comp) = (base, suffix) /\
        moduleUrl comp = base ++ suffix /\
        _ngfactoryModuleUrl comp = base ++ ".ngfactory" ++ suffix /\
        ((NoDot (moduleUrl comp) /\ suffix = "") \/
         (exists ext, suffix = "." ++ ext /\ NoDot ext))) /\
  (forall n, _ngfactoryModuleUrl (mkIdentifier n "a/b.ts") = "a/b.ngfactory.ts") /\
  (forall n, _ngfactoryModuleUrl (mkIdentifier n "a/b") = "a/b.ngfactory").
Proof.
  split; [|split; reflexivity].
  intros [n url]. unfold _ngfactoryModuleUrl. simpl moduleUrl.
  destruct (last_dot_split url) as [Hno | (base & ext & -> & Hext)].
  - exists url, "". rewrite (splitSuffix_nodot _ Hno). simpl fst. simpl snd.
    repeat split; auto.
    clear. induction url; simpl; congruence.
  - exists base, ("." ++ ext). rewrite (splitSuffix_dot _ _ Hext).
    repeat split; eauto.
Qed.

End Strings.

(** ** The store after a resolution loop *)

Section Stores.

Implicit Types (h : Heap) (l : loc).

Lemma alter_same (f : CompileIdentifierMetadata -> CompileIdentifierMetadata) h l :
  alter f l h l = f (h l).
Proof. unfold alter, fn_alter. now destruct (decide (l = l)). Qed.

Lemma alter_other (f : CompileIdentifierMetadata -> CompileIdentifierMetadata) h l l' :
  l <> l' -> alter f l h l' = h l'.
Proof. intros Hne. unfold alter, fn_alter. now destruct (decide (l = l')). Qed.

Lemma styles_elsewhere suffix deps h l :
  Forall (fun dep => StylesCompileDependency.valuePlaceholder dep <> l) deps ->
  fold_left (resolveStyleDependency suffix) deps h l = h l.
Proof.
  intros Hall. revert h. induction Hall as [|dep deps Hne _ IH]; intros h; simpl; [reflexivity|].
  rewrite IH. unfold resolveStyleDependency. now rewrite alter_other.
Qed.

(** The last dependency that names a placeholder decides its URL. *)
Lemma styles_last_write suffix deps h i dep :
  deps !! i = Some dep ->
  (forall j dep', i < j -> deps !! j = Some dep' ->
     StylesCompileDependency.valuePlaceholder dep' <> StylesCompileDependency.valuePlaceholder dep) ->
  moduleUrl (fold_left (resolveStyleDependency suffix) deps h
               (StylesCompileDependency.valuePlaceholder dep))
  = _stylesModuleUrl (StylesCompileDependency.moduleUrl dep)
      (StylesCompileDependency.isShimmed dep) suffix.
Proof.
  revert h i. induction deps as [|d deps IH]; intros h i Hi Hlater; [discriminate|].
  destruct i as [|i]; simpl in *.
  - injection Hi as ->. rewrite styles_elsewhere.
    + unfold resolveStyleDependency. now rewrite alter_same.
    + apply Forall_lookup. intros j dep' Hj.
      apply (Hlater (S j) dep'); [lia | exact Hj].
  - apply (IH _ i Hi). intros j dep' Hij Hj. apply (Hlater (S j) dep'); [lia | exact Hj].
Qed.

Lemma styles_keep_name suffix deps h l :
  name (fold_left (resolveStyleDependency suffix) deps h l) = name (h l).
Proof.
  revert h. induction deps as [|d deps IH]; intros h; simpl; [reflexivity|].
  rewrite IH. unfold resolveStyleDependency, alter, fn_alter.
  now destruct (decide _) as [<-|].
Qed.

Lemma resolveViewDependency_elsewhere h dep l :
  assignedPlaceholder dep <> Some l -> resolveViewDependency h dep l = h l.
Proof.
  destruct dep as [comp p|comp p|p]; simpl; intros Hne; [| |reflexivity];
    rewrite !alter_other; congruence.
Qed.

Lemma views_elsewhere deps h l :
  Forall (fun dep => assignedPlaceholder dep <> Some l) deps ->
  fold_left resolveViewDependency deps h l = h l.
Proof.
  intros Hall. revert h. induction Hall as [|dep deps Hne _ IH]; intros h; simpl; [reflexivity|].
  rewrite IH. now apply resolveViewDependency_elsewhere.
Qed.

Lemma views_last_write deps h i dep l :
  deps !! i = Some dep ->
  assignedPlaceholder dep = Some l ->
  (forall j dep', i < j -> deps !! j = Some dep' -> assignedPlaceholder dep' <> Some l) ->
  fold_left resolveViewDependency deps h l = resolveViewDependency
    (fold_left resolveViewDependency (take i deps) h) dep l.
Proof.
  revert h i. induction deps as [|d deps IH]; intros h i Hi Hl Hlater; [discriminate|].
  destruct i as [|i]; simpl in *.
  - injection Hi as ->. apply views_elsewhere.
    apply Forall_lookup. intros j dep' Hj.
    apply (Hlater (S j) dep'); [lia | exact Hj].
  - apply (IH _ i Hi Hl). intros j dep' Hij Hj. apply (Hlater (S j) dep'); [lia | exact Hj].
Qed.

End Stores.

(** ** Running the compiler *)

Section Runs.

Context `{collaborators : Collaborators}.

Lemma forEach_styles suffix (deps : list StylesCompileDependency.t) (w : World) :
  forEach deps (fun dep =>
    assign_moduleUrl (StylesCompileDependency.valuePlaceholder dep)
      (_stylesModuleUrl (StylesCompileDependency.moduleUrl dep)
         (StylesCompileDependency.isShimmed dep) suffix)) w
  = (Return tt, {| heap := fold_left (resolveStyleDependency suffix) deps (heap w);
                   calls := calls w |}).
Proof.
  unfold forEach. revert w. induction deps as [|dep deps IH]; intros [h log]; [reflexivity|].
  simpl foldM. unfold bind at 1. simpl. apply IH.
Qed.

Lemma resolveStyleStatements_run containingModuleUrl (compileResult : StylesCompileResult.t)
    (w : World) :
  _resolveStyleStatements containingModuleUrl compileResult w
  = (Return (StylesCompileResult.statements compileResult),
     {| heap := fold_left (resolveStyleDependency (snd (_splitSuffix containingModuleUrl)))
                  (StylesCompileResult.dependencies compileResult) (heap w);
        calls := calls w |}).
Proof. unfold _resolveStyleStatements, bind. now rewrite forEach_styles. Qed.

Lemma resolveViewStatements_run (compileResult : ViewCompileResult.t) (w : World) :
  _resolveViewStatements compileResult w
  = (Return (ViewCompileResult.statements compileResult),
     {| heap := fold_left resolveViewDependency
                  (ViewCompileResult.dependencies compileResult) (heap w);
        calls := calls w |}).
Proof.
  unfold _resolveViewStatements, forEach.
  generalize (ViewCompileResult.dependencies compileResult) as deps.
  generalize (ViewCompileResult.statements compileResult) as stmts.
  intros stmts deps. revert w. induction deps as [|dep deps IH]; intros [h log]; [reflexivity|].
  specialize (IH {| heap := resolveViewDependency h dep; calls := log |}).
  unfold bind in *. simpl foldM. unfold bind at 1.
  destruct dep as [comp p|comp p|p]; simpl in *; exact IH.
Qed.

Lemma loadAndCompileStylesheet_loop suffix (deps : list StylesCompileDependency.t)
    (importedUrls : list string) (w : World) :
  foldM (loadAndCompileStylesheet_each suffix) deps importedUrls w
  = (Return (importedUrls ++ map StylesCompileDependency.moduleUrl deps),
     {| heap := fold_left (resolveStyleDependency suffix) deps (heap w); calls := calls w |}).
Proof.
  revert importedUrls w. induction deps as [|dep deps IH]; intros urls [h log]; simpl.
  - now rewrite app_nil_r.
  - unfold bind at 1. simpl. rewrite IH. simpl. now rewrite <- app_assoc.
Qed.

Lemma compileComponent_run compMeta directives pipes targetStatements (w : World)
    styleResult h1 parsedTemplate h2 viewResult h3 :
  styleCompiler_compileComponent compMeta (heap w) = (Return styleResult, h1) ->
  templateParser_parse compMeta (template_source (template compMeta)) directives pipes
    (name (type compMeta)) h1 = (Return parsedTemplate, h2) ->
  viewCompiler_compileComponent compMeta parsedTemplate
    (o.variable (StylesCompileResult.stylesVar styleResult)) pipes h2
    = (Return viewResult, h3) ->
  _compileComponent compMeta directives pipes targetStatements w
  = (Return (ViewCompileResult.viewFactoryVar viewResult,
             (targetStatements ++ StylesCompileResult.statements styleResult)
               ++ ViewCompileResult.statements viewResult),
     {| heap := fold_left resolveViewDependency (ViewCompileResult.dependencies viewResult)
                  (fold_left
                     (resolveStyleDependency (snd (_splitSuffix (moduleUrl (type compMeta)))))
                     (StylesCompileResult.dependencies styleResult) h3);
        calls := calls w ++
                 [StyleCompileComponent compMeta;
                  TemplateParse compMeta (template_source (template compMeta)) directives pipes
                    (name (type compMeta));
                  ViewCompileComponent compMeta parsedTemplate
                    (o.variable (StylesCompileResult.stylesVar styleResult)) pipes] |}).
Proof.
  intros Hstyle Hparse Hview.
  unfold _compileComponent, bind, invoke. rewrite Hstyle. simpl. rewrite Hparse. simpl.
  rewrite Hview. rewrite resolveStyleStatements_run. rewrite resolveViewStatements_run.
  simpl. unfold ret. now rewrite <- !app_assoc.
Qed.

(** C5: after [_resolveViewStatements], the placeholder of a view-factory
    dependency has the factory module URL of the referenced component's type,
    and the placeholder of a component-factory dependency has the
    component-factory name and the factory module URL of the referenced
    identifier (the last dependency that names a placeholder decides). A
    dependency of any other kind causes no assignment: every object that is not
    the placeholder of one of the two recognised kinds is as it was, and so are
    the statements. *)
Theorem resolveViewStatements_resolves (compileResult : ViewCompileResult.t) (w : World) :
  exists w',
    _resolveViewStatements compileResult w
    = (Return (ViewCompileResult.statements compileResult), w') /\
    calls w' = calls w /\
    (forall i comp placeholder,
        ViewCompileResult.dependencies compileResult !! i
        = Some (ViewFactoryDependency comp placeholder) ->
        (forall j dep', i < j -> ViewCompileResult.dependencies compileResult !! j = Some dep' ->
                        assignedPlaceholder dep' <> Some placeholder) ->
        moduleUrl (heap w' placeholder) = _ngfactoryModuleUrl (type comp)) /\
    (forall i comp placeholder,
        ViewCompileResult.dependencies compileResult !! i
        = Some (ComponentFactoryDependency comp placeholder) ->
        (forall j dep', i < j -> ViewCompileResult.dependencies compileResult !! j = Some dep' ->
                        assignedPlaceholder dep' <> Some placeholder) ->
        name (heap w' placeholder) = _componentFactoryName comp /\
        moduleUrl (heap w' placeholder) = _ngfactoryModuleUrl comp) /\
    (forall l,
        (forall dep, dep ∈ ViewCompileResult.dependencies compileResult ->
                     assignedPlaceholder dep <> Some l) ->
        heap w' l = heap w l).
Proof.
  eexists. split; [apply resolveViewStatements_run|]. simpl.
  split; [reflexivity|]. split; [|split].
  - intros i comp p Hi Hlater.
    rewrite (views_last_write _ _ i _ p Hi eq_refl Hlater). simpl.
    now rewrite alter_same.
  - intros i comp p Hi Hlater.
    rewrite (views_last_write _ _ i _ p Hi eq_refl Hlater). simpl.
    now rewrite !alter_same.
  - intros l Hnone. apply views_elsewhere, Forall_forall. exact Hnone.
Qed.

(** C4: in [_compileComponent], the placeholder of every stylesheet dependency
    of the component gets the styles module URL built from the dependency's
    URL, its shim flag and the suffix of the component's own module URL (from
    its last dot): the dependency's URL is taken whole and contributes no
    suffix. This is what the store holds when [_compileComponent] returns,
    for a placeholder that no later stylesheet dependency and no view
    dependency of the component shares. *)
Theorem compileComponent_resolves_styles compMeta directives pipes targetStatements (w : World)
    styleResult h1 parsedTemplate h2 viewResult h3 :
  styleCompiler_compileComponent compMeta (heap w) = (Return styleResult, h1) ->
  templateParser_parse compMeta (template_source (template compMeta)) directives pipes
    (name (type compMeta)) h1 = (Return parsedTemplate, h2) ->
  viewCompiler_compileComponent compMeta parsedTemplate
    (o.variable (StylesCompileResult.stylesVar styleResult)) pipes h2
    = (Return viewResult, h3) ->
  exists result w',
    _compileComponent compMeta directives pipes targetStatements w = (Return result, w') /\
    forall i dep,
      StylesCompileResult.dependencies styleResult !! i = Some dep ->
      (forall j dep', i < j -> StylesCompileResult.dependencies styleResult !! j = Some dep' ->
                      StylesCompileDependency.valuePlaceholder dep'
                      <> StylesCompileDependency.valuePlaceholder dep) ->
      (forall vdep, vdep ∈ ViewCompileResult.dependencies viewResult ->
                    assignedPlaceholder vdep
                    <> Some (StylesCompileDependency.valuePlaceholder dep)) ->
      moduleUrl (heap w' (StylesCompileDependency.valuePlaceholder dep))
      = _stylesModuleUrl (StylesCompileDependency.moduleUrl dep)
          (StylesCompileDependency.isShimmed dep)
          (snd (_splitSuffix (moduleUrl (type compMeta)))) /\
      moduleUrl (heap w' (StylesCompileDependency.valuePlaceholder dep))
      = (StylesCompileDependency.moduleUrl dep
         ++ (if StylesCompileDependency.isShimmed dep then ".shim" else "")
         ++ snd (_splitSuffix (moduleUrl (type compMeta))))%string.
Proof.
  intros Hstyle Hparse Hview. do 2 eexists.
  split; [exact (compileComponent_run _ _ _ _ _ _ _ _ _ _ _ Hstyle Hparse Hview)|].
  simpl. intros i dep Hi Hlater Hviews.
  rewrite views_elsewhere by (apply Forall_forall; exact Hviews).
  rewrite (styles_last_write _ _ _ i dep Hi Hlater).
  split; [reflexivity|]. unfold _stylesModuleUrl.
  now destruct (StylesCompileDependency.isShimmed dep).
Qed.

Lemma emitted_app (log1 log2 : list Call) :
  emitted (log1 ++ log2) = emitted log1 ++ emitted log2.
Proof.
  induction log1 as [|c log1 IH]; simpl; [reflexivity|].
  destruct c; simpl; now rewrite IH.
Qed.

(** What [loadAndCompileStylesheet] does once the fetch has resolved and the
    style compiler has returned. *)
Lemma loadAndCompileStylesheet_run stylesheetUrl shim suffix (w : World) cssText compileResult h1 :
  xhr_get stylesheetUrl = Return cssText ->
  styleCompiler_compileStylesheet stylesheetUrl cssText shim (heap w)
  = (Return compileResult, h1) ->
  loadAndCompileStylesheet stylesheetUrl shim suffix w
  = let h' := fold_left (resolveStyleDependency suffix)
                (StylesCompileResult.dependencies compileResult) h1 in
    let url := _stylesModuleUrl stylesheetUrl shim suffix in
    let statements := StylesCompileResult.statements compileResult in
    let exportedVars := [StylesCompileResult.stylesVar compileResult] in
    (match outputEmitter_emitStatements url statements exportedVars h' with
     | Return source =>
         Return {| StyleSheetSourceWithImports.source :=
                     {| SourceModule.moduleUrl := url; SourceModule.source := source |};
                   StyleSheetSourceWithImports.importedUrls :=
                     map StylesCompileDependency.moduleUrl
                       (StylesCompileResult.dependencies compileResult) |}
     | Throw e => Throw e
     end,
     {| heap := h';
        calls := calls w ++ [XhrGet stylesheetUrl;
                             StyleCompileStylesheet stylesheetUrl cssText shim;
                             EmitStatements url statements exportedVars] |}).
Proof.
  intros Hget Hcompile.
  unfold loadAndCompileStylesheet, bind, consult, invoke. rewrite Hget. simpl.
  rewrite Hcompile. rewrite loadAndCompileStylesheet_loop. simpl.
  unfold _codgenStyles, _codegenSourceModule, bind, consult, invoke. simpl.
  rewrite <- !app_assoc. simpl.
  destruct (outputEmitter_emitStatements _ _ _ _); reflexivity.
Qed.

(** C8: in [loadAndCompileStylesheet], once the fetch has resolved and the
    style compiler, called with the caller's shim flag, has returned, the
    placeholder of every stylesheet dependency holds the styles module URL of
    the dependency: its URL, then [.shim] when the dependency is shimmed, then
    the suffix the caller gave. The flag that decides is the one the
    dependency carries; it is the caller's when the style compiler hands it
    through. This is what the store holds afterwards, and what the emitter
    sees, for a placeholder that no later dependency shares. *)
Theorem loadAndCompileStylesheet_resolves stylesheetUrl shim suffix (w : World)
    cssText compileResult h1 :
  xhr_get stylesheetUrl = Return cssText ->
  styleCompiler_compileStylesheet stylesheetUrl cssText shim (heap w)
  = (Return compileResult, h1) ->
  exists result w',
    loadAndCompileStylesheet stylesheetUrl shim suffix w = (result, w') /\
    calls w'
    = calls w ++ [XhrGet stylesheetUrl;
                  StyleCompileStylesheet stylesheetUrl cssText shim;
                  EmitStatements (_stylesModuleUrl stylesheetUrl shim suffix)
                    (StylesCompileResult.statements compileResult)
                    [StylesCompileResult.stylesVar compileResult]] /\
    forall i dep,
      StylesCompileResult.dependencies compileResult !! i = Some dep ->
      (forall j dep', i < j -> StylesCompileResult.dependencies compileResult !! j = Some dep' ->
                      StylesCompileDependency.valuePlaceholder dep'
                      <> StylesCompileDependency.valuePlaceholder dep) ->
      moduleUrl (heap w' (StylesCompileDependency.valuePlaceholder dep))
      = _stylesModuleUrl (StylesCompileDependency.moduleUrl dep)
          (StylesCompileDependency.isShimmed dep) suffix /\
      moduleUrl (heap w' (StylesCompileDependency.valuePlaceholder dep))
      = (if StylesCompileDependency.isShimmed dep
         then StylesCompileDependency.moduleUrl dep ++ ".shim" ++ suffix
         else StylesCompileDependency.moduleUrl dep ++ suffix)%string /\
      (StylesCompileDependency.isShimmed dep = shim ->
       moduleUrl (heap w' (StylesCompileDependency.valuePlaceholder dep))
       = _stylesModuleUrl (StylesCompileDependency.moduleUrl dep) shim suffix).
Proof.
  intros Hget Hcompile. do 2 eexists.
  split; [exact (loadAndCompileStylesheet_run _ _ suffix _ _ _ _ Hget Hcompile)|].
  simpl. split; [reflexivity|]. intros i dep Hi Hlater.
  rewrite (styles_last_write _ _ _ i dep Hi Hlater).
  split; [reflexivity|]. split; [reflexivity|]. now intros ->.
Qed.

(** C9: the [importedUrls] that [loadAndCompileStylesheet] returns are the
    module URLs of the style compiler's dependencies, as the style compiler
    gave them and in the same order; filling in the placeholders does not
    change them. The call returns whenever the fetch resolves, the style
    compiler returns and the emitter returns. *)
Theorem loadAndCompileStylesheet_importedUrls stylesheetUrl shim suffix (w : World)
    cssText compileResult h1 :
  xhr_get stylesheetUrl = Return cssText ->
  styleCompiler_compileStylesheet stylesheetUrl cssText shim (heap w)
  = (Return compileResult, h1) ->
  (forall result w',
      loadAndCompileStylesheet stylesheetUrl shim suffix w = (Return result, w') ->
      StyleSheetSourceWithImports.importedUrls result
      = map StylesCompileDependency.moduleUrl
          (StylesCompileResult.dependencies compileResult)) /\
  (forall source,
      outputEmitter_emitStatements (_stylesModuleUrl stylesheetUrl shim suffix)
        (StylesCompileResult.statements compileResult)
        [StylesCompileResult.stylesVar compileResult]
        (fold_left (resolveStyleDependency suffix)
           (StylesCompileResult.dependencies compileResult) h1) = Return source ->
      exists result w',
        loadAndCompileStylesheet stylesheetUrl shim suffix w = (Return result, w') /\
        StyleSheetSourceWithImports.importedUrls result
        = map StylesCompileDependency.moduleUrl
            (StylesCompileResult.dependencies compileResult)).
Proof.
  intros Hget Hcompile.
  rewrite (loadAndCompileStylesheet_run _ _ suffix _ _ _ _ Hget Hcompile). cbv zeta.
  split.
  - intros result w' Hrun.
    destruct (outputEmitter_emitStatements _ _ _ _); [|discriminate].
    now injection Hrun as <- _.
  - intros source ->. do 2 eexists. split; reflexivity.
Qed.

(** C10: the [SourceModule] that [loadAndCompileStylesheet] returns has the
    styles module URL of [(stylesheetUrl, shim, suffix)], and the one emitter
    call that made it was given that URL, the style compiler's statements and
    exactly one exported name, the style compiler's [stylesVar]. The call
    returns whenever the fetch resolves, the style compiler returns and the
    emitter returns. *)
Theorem loadAndCompileStylesheet_module stylesheetUrl shim suffix (w : World)
    cssText compileResult h1 :
  xhr_get stylesheetUrl = Return cssText ->
  styleCompiler_compileStylesheet stylesheetUrl cssText shim (heap w)
  = (Return compileResult, h1) ->
  (forall result w',
      loadAndCompileStylesheet stylesheetUrl shim suffix w = (Return result, w') ->
      SourceModule.moduleUrl (StyleSheetSourceWithImports.source result)
      = _stylesModuleUrl stylesheetUrl shim suffix /\
      emitted (calls w')
      = emitted (calls w) ++
        [(_stylesModuleUrl stylesheetUrl shim suffix,
          StylesCompileResult.statements compileResult,
          [StylesCompileResult.stylesVar compileResult])]) /\
  (forall source,
      outputEmitter_emitStatements (_stylesModuleUrl stylesheetUrl shim suffix)
        (StylesCompileResult.statements compileResult)
        [StylesCompileResult.stylesVar compileResult]
        (fold_left (resolveStyleDependency suffix)
           (StylesCompileResult.dependencies compileResult) h1) = Return source ->
      exists w',
        loadAndCompileStylesheet stylesheetUrl shim suffix w
        = (Return {| StyleSheetSourceWithImports.source :=
                       {| SourceModule.moduleUrl := _stylesModuleUrl stylesheetUrl shim suffix;
                          SourceModule.source := source |};
                     StyleSheetSourceWithImports.importedUrls :=
                       map StylesCompileDependency.moduleUrl
                         (StylesCompileResult.dependencies compileResult) |}, w')).
Proof.
  intros Hget Hcompile.
  rewrite (loadAndCompileStylesheet_run _ _ suffix _ _ _ _ Hget Hcompile). cbv zeta.
  split.
  - intros result w' Hrun.
    destruct (outputEmitter_emitStatements _ _ _ _); [|discriminate].
    injection Hrun as <- <-. simpl. split; [reflexivity|].
    now rewrite emitted_app.
  - intros source ->. eexists. reflexivity.
Qed.

(** *** Calls to the emitter *)

Lemma silent_ret {A} (a : A) : silent (ret a).
Proof. intros w. reflexivity. Qed.

Lemma silent_throw {A} e : silent (throw (A:=A) e).
Proof. intros w. reflexivity. Qed.

Lemma silent_bind {A B} (m : M A) (k : A -> M B) :
  silent m -> (forall a, silent (k a)) -> silent (bind m k).
Proof.
  intros Hm Hk w. unfold bind. specialize (Hm w).
  destruct (m w) as [[a|e] w1]; simpl in *; [|exact Hm].
  now rewrite Hk.
Qed.

Lemma silent_update f : silent (update f).
Proof. intros w. reflexivity. Qed.

Lemma silent_invoke {A} c (f : Heap -> outcome A * Heap) :
  emitted [c] = [] -> silent (invoke c f).
Proof.
  intros Hc w. unfold invoke. destruct (f (heap w)) as [r h]. simpl.
  rewrite emitted_app, Hc. apply app_nil_r.
Qed.

Lemma silent_foldM {A B} (body : B -> A -> M B) l b :
  (forall b x, silent (body b x)) -> silent (foldM body l b).
Proof.
  intros Hbody. revert b. induction l as [|x l IH]; intros b; simpl.
  - apply silent_ret.
  - apply silent_bind; [apply Hbody | exact IH].
Qed.

Lemma silent_compileComponent compMeta directives pipes targetStatements :
  silent (_compileComponent compMeta directives pipes targetStatements).
Proof.
  unfold _compileComponent.
  apply silent_bind; [apply silent_invoke; reflexivity|]. intros styleResult.
  apply silent_bind; [apply silent_invoke; reflexivity|]. intros parsedTemplate.
  apply silent_bind; [apply silent_invoke; reflexivity|]. intros viewResult.
  apply silent_bind; [intros w; now rewrite resolveStyleStatements_run|]. intros ss.
  apply silent_bind; [intros w; now rewrite resolveViewStatements_run|]. intros vs.
  apply silent_ret.
Qed.

Lemma silent_each locals componentWithDirs :
  silent (compileTemplates_each locals componentWithDirs).
Proof.
  destruct locals as [statements exportedVars]. unfold compileTemplates_each.
  apply silent_bind.
  { unfold _assertComponent. destruct (negb _); [apply silent_throw | apply silent_ret]. }
  intros _. apply silent_bind; [apply silent_compileComponent|]. intros [v stmts].
  apply silent_bind; [apply silent_invoke; reflexivity|]. intros hostMeta.
  apply silent_bind; [apply silent_compileComponent|]. intros [hv stmts'].
  apply silent_ret.
Qed.

Lemma silent_loop components locals :
  silent (foldM compileTemplates_each components locals).
Proof. apply silent_foldM. intros. apply silent_each. Qed.

(** *** Inversion of successful runs *)

Lemma bind_Return_inv {A B} (m : M A) (k : A -> M B) w b w'' :
  bind m k w = (Return b, w'') ->
  exists a w', m w = (Return a, w') /\ k a w' = (Return b, w'').
Proof.
  unfold bind. destruct (m w) as [[a|e] w']; [eauto | discriminate].
Qed.

Lemma invoke_Return_inv {A} c (f : Heap -> outcome A * Heap) w a w' :
  invoke c f w = (Return a, w') ->
  exists h', f (heap w) = (Return a, h') /\ w' = {| heap := h'; calls := calls w ++ [c] |}.
Proof.
  unfold invoke. destruct (f (heap w)) as [r h']. intros [= -> <-]. eauto.
Qed.

Lemma foldM_app {A B} (body : B -> A -> M B) l1 l2 b w :
  foldM body (l1 ++ l2) b w = bind (foldM body l1 b) (foldM body l2) w.
Proof.
  revert b w. induction l1 as [|x l1 IH]; intros b w; simpl; [reflexivity|].
  unfold bind in *. destruct (body b x w) as [[b'|e] w1]; [apply IH | reflexivity].
Qed.

Lemma compileComponent_inv compMeta directives pipes targetStatements w v statements w' :
  _compileComponent compMeta directives pipes targetStatements w
  = (Return (v, statements), w') ->
  exists parsedTemplate styles h viewResult h',
    viewCompiler_compileComponent compMeta parsedTemplate styles pipes h
    = (Return viewResult, h') /\
    v = ViewCompileResult.viewFactoryVar viewResult.
Proof.
  unfold _compileComponent. intros Hrun.
  apply bind_Return_inv in Hrun as (styleResult & w1 & _ & Hrun).
  apply bind_Return_inv in Hrun as (parsedTemplate & w2 & _ & Hrun).
  apply bind_Return_inv in Hrun as (viewResult & w3 & Hview & Hrun).
  apply invoke_Return_inv in Hview as (h' & Hview & _).
  apply bind_Return_inv in Hrun as (ss & w4 & _ & Hrun).
  apply bind_Return_inv in Hrun as (vs & w5 & _ & Hrun).
  injection Hrun as <- _ _. eauto 10.
Qed.

Lemma each_inv statements exportedVars componentWithDirs w statements' exportedVars' w' :
  compileTemplates_each (statements, exportedVars) componentWithDirs w
  = (Return (statements', exportedVars'), w') ->
  exists v,
    viewFactoryNameOf componentWithDirs v /\
    exportedVars'
    = exportedVars ++
      [v; _componentFactoryName
            (type (NormalizedComponentWithViewDirectives.component componentWithDirs))].
Proof.
  unfold compileTemplates_each. intros Hrun.
  apply bind_Return_inv in Hrun as (_ & w1 & _ & Hrun).
  apply bind_Return_inv in Hrun as ([v stmts] & w2 & Hcomp & Hrun).
  apply bind_Return_inv in Hrun as (hostMeta & w3 & _ & Hrun).
  apply bind_Return_inv in Hrun as ([hv stmts'] & w4 & _ & Hrun).
  injection Hrun as _ <- _.
  exists v. split; [exact (compileComponent_inv _ _ _ _ _ _ _ _ Hcomp)|].
  now rewrite <- app_assoc.
Qed.

Lemma loop_inv components statements exportedVars w statements' exportedVars' w' :
  foldM compileTemplates_each components (statements, exportedVars) w
  = (Return (statements', exportedVars'), w') ->
  exists viewFactoryVars,
    Forall2 viewFactoryNameOf components viewFactoryVars /\
    exportedVars' = exportedVars ++ exportedNames components viewFactoryVars.
Proof.
  revert statements exportedVars w.
  induction components as [|c components IH]; intros statements exportedVars w Hrun; simpl in Hrun.
  - injection Hrun as _ <- _. exists []. split; [constructor|]. now rewrite app_nil_r.
  - apply bind_Return_inv in Hrun as ([stmts ev] & w1 & Heach & Hrun).
    apply each_inv in Heach as (v & Hv & ->).
    apply IH in Hrun as (vs & Hvs & ->).
    exists (v :: vs). split; [now constructor|].
    unfold exportedNames. simpl. now rewrite <- app_assoc.
Qed.

Lemma exportedNames_length components viewFactoryVars :
  length components = length viewFactoryVars ->
  length (exportedNames components viewFactoryVars) = 2 * length components.
Proof.
  revert viewFactoryVars. induction components as [|c components IH]; intros [|v vs] Hlen;
    try discriminate; [reflexivity|].
  unfold exportedNames in *. simpl. rewrite IH; [lia | now injection Hlen].
Qed.

Lemma exportedNames_lookup components viewFactoryVars i componentWithDirs :
  length components = length viewFactoryVars ->
  components !! i = Some componentWithDirs ->
  exportedNames components viewFactoryVars !! (2 * i) = viewFactoryVars !! i /\
  exportedNames components viewFactoryVars !! (2 * i + 1)
  = Some (_componentFactoryName
            (type (NormalizedComponentWithViewDirectives.component componentWithDirs))).
Proof.
  revert viewFactoryVars i.
  induction components as [|c components IH]; intros [|v vs] i Hlen Hi; try discriminate.
  destruct i as [|i]; simpl in Hi.
  - injection Hi as ->. split; reflexivity.
  - replace (2 * S i) with (S (S (2 * i))) by lia.
    apply (IH vs i); [now injection Hlen | exact Hi].
Qed.

(** What [compileTemplates] hands to the emitter, if it gets that far. *)
Lemma compileTemplates_emits components w :
  emitted (calls (snd (compileTemplates components w))) = emitted (calls w) \/
  exists statements viewFactoryVars first,
    head components = Some first /\
    Forall2 viewFactoryNameOf components viewFactoryVars /\
    emitted (calls (snd (compileTemplates components w)))
    = emitted (calls w) ++
      [(_ngfactoryModuleUrl (type (NormalizedComponentWithViewDirectives.component first)),
        statements, exportedNames components viewFactoryVars)] /\
    forall m, fst (compileTemplates components w) = Return m ->
              SourceModule.moduleUrl m
              = _ngfactoryModuleUrl
                  (type (NormalizedComponentWithViewDirectives.component first)).
Proof.
  destruct components as [|first rest]; [now left|].
  unfold compileTemplates, bind.
  pose proof (silent_loop (first :: rest) ([], []) w) as Hsilent.
  destruct (foldM compileTemplates_each (first :: rest) ([], []) w)
    as [[[statements exportedVars]|e] w1] eqn:Hloop; simpl in Hsilent; [|now left].
  right. apply loop_inv in Hloop as (vs & Hvs & ->). simpl app.
  exists statements, vs, first. split; [reflexivity|]. split; [exact Hvs|].
  unfold _codegenSourceModule, bind, consult, invoke.
  destruct (outputEmitter_emitStatements _ _ _ _) as [source|e]; simpl;
    rewrite emitted_app, Hsilent; (split; [reflexivity|]); intros m [= <-]; reflexivity.
Qed.

Lemma compileTemplates_Return_inv components w m w' :
  compileTemplates components w = (Return m, w') ->
  exists first statements viewFactoryVars,
    head components = Some first /\
    Forall2 viewFactoryNameOf components viewFactoryVars /\
    SourceModule.moduleUrl m
    = _ngfactoryModuleUrl (type (NormalizedComponentWithViewDirectives.component first)) /\
    emitted (calls w')
    = emitted (calls w) ++
      [(SourceModule.moduleUrl m, statements, exportedNames components viewFactoryVars)].
Proof.
  intros Hrun. destruct components as [|first rest]; [discriminate|].
  unfold compileTemplates in Hrun.
  apply bind_Return_inv in Hrun as ([stmts ev] & w1 & Hloop & Hrun).
  pose proof (silent_loop (first :: rest) ([], []) w) as Hsilent.
  rewrite Hloop in Hsilent. simpl in Hsilent.
  apply loop_inv in Hloop as (vs & Hvs & ->). simpl app in Hrun.
  unfold _codegenSourceModule, consult in Hrun.
  apply bind_Return_inv in Hrun as (source & w2 & Hemit & Hrun).
  injection Hrun as <- <-.
  apply invoke_Return_inv in Hemit as (h' & _ & ->). simpl.
  exists first, stmts, vs. rewrite emitted_app, Hsilent. auto.
Qed.

(** *** Failing and succeeding runs *)

Lemma each_not_component locals componentWithDirs w :
  isComponent (NormalizedComponentWithViewDirectives.component componentWithDirs) = false ->
  compileTemplates_each locals componentWithDirs w
  = (Throw (BaseException
              ("Could not compile '"
               ++ name (type (NormalizedComponentWithViewDirectives.component componentWithDirs))
               ++ "' because it is not a component.")%string), w).
Proof.
  intros Hbad. destruct locals as [statements exportedVars].
  unfold compileTemplates_each, bind, _assertComponent. now rewrite Hbad.
Qed.

Lemma loop_not_component pre bad post locals w :
  isComponent (NormalizedComponentWithViewDirectives.component bad) = false ->
  exists e w', foldM compileTemplates_each (pre ++ bad :: post) locals w = (Throw e, w').
Proof.
  intros Hbad. revert locals w. induction pre as [|c pre IH]; intros locals w; simpl.
  - unfold bind. rewrite (each_not_component _ _ _ Hbad). eauto.
  - unfold bind. destruct (compileTemplates_each locals c w) as [[locals'|e] w1]; [|eauto].
    apply IH.
Qed.

Lemma compileComponent_progress compMeta directives pipes targetStatements w :
  neverThrow ->
  exists result w',
    _compileComponent compMeta directives pipes targetStatements w = (Return result, w').
Proof.
  intros (_ & Hstyle & Hparse & Hview & _).
  destruct (Hstyle compMeta (heap w)) as (styleResult & h1 & E1).
  destruct (Hparse compMeta (template_source (template compMeta)) directives pipes
              (name (type compMeta)) h1) as (parsedTemplate & h2 & E2).
  destruct (Hview compMeta parsedTemplate
              (o.variable (StylesCompileResult.stylesVar styleResult)) pipes h2)
    as (viewResult & h3 & E3).
  rewrite (compileComponent_run _ _ _ targetStatements _ _ _ _ _ _ _ E1 E2 E3). eauto.
Qed.

Lemma each_progress locals componentWithDirs w :
  neverThrow ->
  isComponent (NormalizedComponentWithViewDirectives.component componentWithDirs) = true ->
  exists locals' w', compileTemplates_each locals componentWithDirs w = (Return locals', w').
Proof.
  intros Hnever Hcomp. destruct locals as [statements exportedVars].
  unfold compileTemplates_each, bind at 1, _assertComponent. rewrite Hcomp. simpl.
  unfold bind at 1.
  destruct (compileComponent_progress
              (NormalizedComponentWithViewDirectives.component componentWithDirs)
              (NormalizedComponentWithViewDirectives.directives componentWithDirs)
              (NormalizedComponentWithViewDirectives.pipes componentWithDirs)
              statements w Hnever) as ([v stmts] & w1 & ->).
  unfold bind at 1, consult, invoke.
  destruct Hnever as (Hhost & Hrest).
  destruct (Hhost (type (NormalizedComponentWithViewDirectives.component componentWithDirs))
              (selector (NormalizedComponentWithViewDirectives.component componentWithDirs)))
    as (hostMeta & ->).
  unfold bind at 1.
  match goal with |- context [_compileComponent ?m ?d ?p ?t ?w] =>
    destruct (compileComponent_progress m d p t w (conj Hhost Hrest)) as ([hv stmts'] & w2 & ->)
  end.
  unfold ret. eauto.
Qed.

Lemma loop_progress components locals w :
  neverThrow ->
  Forall (fun c => isComponent (NormalizedComponentWithViewDirectives.component c) = true)
    components ->
  exists locals' w', foldM compileTemplates_each components locals w = (Return locals', w').
Proof.
  intros Hnever Hall. revert locals w.
  induction Hall as [|c components Hc _ IH]; intros locals w; simpl.
  - unfold ret. eauto.
  - unfold bind. destruct (each_progress locals c w Hnever Hc) as (locals' & w1 & ->).
    apply IH.
Qed.

(** ** The claims about [compileTemplates] *)

(** C1, as the code has it: the list of exported names that [compileTemplates]
    passes to the emitter has exactly two entries per component, in the order
    of the components: the name of the component's own view factory, then the
    component-factory name, which is the component's type name followed by
    [NgFactory]. The name of the host view factory is not exported. Whenever
    [compileTemplates] returns a module, the emitter was called once, with such
    a list. *)
Theorem compileTemplates_exports components (w : World) :
  (forall url statements exportedVars,
      emitted (calls (snd (compileTemplates components w)))
      = emitted (calls w) ++ [(url, statements, exportedVars)] ->
      exists viewFactoryVars,
        Forall2 viewFactoryNameOf components viewFactoryVars /\
        exportedVars = exportedNames components viewFactoryVars /\
        length exportedVars = 2 * length components /\
        forall i componentWithDirs,
          components !! i = Some componentWithDirs ->
          exportedVars !! (2 * i) = viewFactoryVars !! i /\
          exportedVars !! (2 * i + 1)
          = Some (name (type (NormalizedComponentWithViewDirectives.component
                                componentWithDirs)) ++ "NgFactory")%string) /\
  (forall m,
      fst (compileTemplates components w) = Return m ->
      exists statements exportedVars,
        emitted (calls (snd (compileTemplates components w)))
        = emitted (calls w) ++ [(SourceModule.moduleUrl m, statements, exportedVars)]).
Proof.
  split.
  - intros url statements exportedVars Hlog.
    destruct (compileTemplates_emits components w)
      as [Hnone | (stmts & vs & first & _ & Hvs & Hone & _)].
    + rewrite Hnone in Hlog. apply (f_equal length) in Hlog.
      rewrite length_app in Hlog. simpl in Hlog. lia.
    + rewrite Hone in Hlog. apply app_inv_head in Hlog. injection Hlog as _ _ <-.
      pose proof (Forall2_length _ _ _ Hvs) as Hlen.
      exists vs. split; [exact Hvs|]. split; [reflexivity|].
      split; [now apply exportedNames_length|].
      intros i c Hi. exact (exportedNames_lookup _ _ _ _ Hlen Hi).
  - intros m Hm.
    destruct (compileTemplates components w) as [r w'] eqn:Hrun. simpl in *. subst r.
    apply compileTemplates_Return_inv in Hrun as (first & stmts & vs & _ & _ & _ & Hlog).
    eauto.
Qed.

(** C2: a list with an entry that is not flagged as a component makes
    [compileTemplates] throw; no module is returned and the emitter is not
    called, whatever came before the entry. When the entries before the first
    such entry compiled, the exception is the [BaseException] whose message
    names that entry's type, and what was compiled for the earlier entries is
    dropped with the local arrays; they do compile when they are flagged as
    components and no collaborator throws. *)
Theorem compileTemplates_not_component pre bad post (w : World) :
  isComponent (NormalizedComponentWithViewDirectives.component bad) = false ->
  (exists e w',
      compileTemplates (pre ++ bad :: post) w = (Throw e, w') /\
      emitted (calls w') = emitted (calls w)) /\
  (forall locals w1,
      foldM compileTemplates_each pre ([], []) w = (Return locals, w1) ->
      compileTemplates (pre ++ bad :: post) w
      = (Throw (BaseException
                  ("Could not compile '"
                   ++ name (type (NormalizedComponentWithViewDirectives.component bad))
                   ++ "' because it is not a component.")%string), w1)) /\
  (neverThrow ->
   Forall (fun c => isComponent (NormalizedComponentWithViewDirectives.component c) = true) pre ->
   exists w1,
     compileTemplates (pre ++ bad :: post) w
     = (Throw (BaseException
                 ("Could not compile '"
                  ++ name (type (NormalizedComponentWithViewDirectives.component bad))
                  ++ "' because it is not a component.")%string), w1)).
Proof.
  intros Hbad.
  assert (Hshape : exists first rest, pre ++ bad :: post = first :: rest)
    by (destruct pre; simpl; eauto).
  destruct Hshape as (first & rest & Hshape).
  assert (Hnamed : forall locals w1,
             foldM compileTemplates_each pre ([], []) w = (Return locals, w1) ->
             compileTemplates (pre ++ bad :: post) w
             = (Throw (BaseException
                         ("Could not compile '"
                          ++ name (type (NormalizedComponentWithViewDirectives.component bad))
                          ++ "' because it is not a component.")%string), w1)).
  { intros locals w1 Hpre.
    assert (Hloop : foldM compileTemplates_each (pre ++ bad :: post) ([], []) w
                    = (Throw (BaseException
                                ("Could not compile '"
                                 ++ name (type (NormalizedComponentWithViewDirectives.component bad))
                                 ++ "' because it is not a component.")%string), w1)).
    { rewrite foldM_app. unfold bind at 1. rewrite Hpre. simpl. unfold bind.
      now rewrite (each_not_component _ _ _ Hbad). }
    rewrite Hshape in *. unfold compileTemplates, bind. now rewrite Hloop. }
  split; [|split; [exact Hnamed|]].
  - destruct (loop_not_component pre bad post ([], []) w Hbad) as (e & w' & Hloop).
    exists e, w'.
    pose proof (silent_loop (pre ++ bad :: post) ([], []) w) as Hsilent.
    rewrite Hloop in Hsilent. split; [|exact Hsilent].
    rewrite Hshape in *. unfold compileTemplates, bind. now rewrite Hloop.
  - intros Hnever Hpre.
    destruct (loop_progress pre ([], []) w Hnever Hpre) as (locals & w1 & Hloop).
    exists w1. exact (Hnamed _ _ Hloop).
Qed.

(** C3: for a non-empty list, a module that [compileTemplates] returns has the
    factory module URL of the first component's type as its URL, and it is the
    only module: the emitter was called once, for that URL. A module is
    returned whenever every entry is flagged as a component and no
    collaborator throws. *)
Theorem compileTemplates_module first rest (w : World) :
  (forall m w',
      compileTemplates (first :: rest) w = (Return m, w') ->
      SourceModule.moduleUrl m
      = _ngfactoryModuleUrl (type (NormalizedComponentWithViewDirectives.component first)) /\
      exists statements exportedVars,
        emitted (calls w')
        = emitted (calls w) ++
          [(_ngfactoryModuleUrl (type (NormalizedComponentWithViewDirectives.component first)),
            statements, exportedVars)]) /\
  (neverThrow ->
   Forall (fun c => isComponent (NormalizedComponentWithViewDirectives.component c) = true)
     (first :: rest) ->
   exists source w',
     compileTemplates (first :: rest) w
     = (Return {| SourceModule.moduleUrl :=
                    _ngfactoryModuleUrl
                      (type (NormalizedComponentWithViewDirectives.component first));
                  SourceModule.source := source |}, w')).
Proof.
  split.
  - intros m w' Hrun.
    apply compileTemplates_Return_inv in Hrun
      as (first' & stmts & vs & [= <-] & _ & Hurl & Hlog).
    rewrite Hurl in Hlog. eauto.
  - intros Hnever Hall.
    destruct (loop_progress (first :: rest) ([], []) w Hnever Hall)
      as ([stmts ev] & w1 & Hloop).
    unfold compileTemplates, bind at 1. rewrite Hloop.
    unfold _codegenSourceModule, bind, consult, invoke.
    destruct Hnever as (_ & _ & _ & _ & Hemit).
    destruct (Hemit (_ngfactoryModuleUrl
                       (type (NormalizedComponentWithViewDirectives.component first)))
                stmts ev (heap w1)) as (source & ->).
    unfold ret. eauto.
Qed.

(** C6: on the empty list [compileTemplates] throws the [BaseException]
    "No components given"; no module is returned, and the store and the log
    of collaborator calls are as before, so neither the emitter nor any
    per-component collaborator was called. *)
Theorem compileTemplates_empty (w : World) :
  compileTemplates [] w = (Throw (BaseException "No components given"), w).
Proof. reflexivity. Qed.

End Runs.

(** ** The claims on concrete runs *)

Example ngfactoryModuleUrl_dotted_directory :
  _ngfactoryModuleUrl (mkIdentifier "B" "a.x/b") = "a.ngfactory.x/b".
Proof. reflexivity. Qed.

Example stylesModuleUrl_shimmed : _stylesModuleUrl "x.css" true ".ts" = "x.css.shim.ts".
Proof. reflexivity. Qed.

Example stylesModuleUrl_unshimmed : _stylesModuleUrl "x.css" false ".ts" = "x.css.ts".
Proof. reflexivity. Qed.

(** An earlier entry whose template is rejected decides the exception. *)
Example compileTemplates_upstream_first :
  fst (compileTemplates (collaborators := Demo.strict)
         [Demo.entry Demo.broken; Demo.entry Demo.highlight] Demo.w0)
  = Throw (Thrown "Template parse errors").
Proof. reflexivity. Qed.

(** With a shared placeholder the later dependency decides. *)
Example shared_placeholder :
  moduleUrl (heap (snd (loadAndCompileStylesheet (collaborators := Demo.shared)
                          "a.css" true ".ts" Demo.w0)) 0)
  = "c.css.shim.ts".
Proof. reflexivity. Qed.

(** One component, two exported names: the claim of three per component
    fails. *)
Lemma three_exports_per_component_refuted :
  ~ (forall (components : list (@NormalizedComponentWithViewDirectives.t Demo.ast Demo.plain))
            (w : World) m w' url statements exportedVars,
        components <> [] ->
        compileTemplates components w = (Return m, w') ->
        emitted (calls w') = emitted (calls w) ++ [(url, statements, exportedVars)] ->
        length exportedVars = 3 * length components).
Proof.
  intros Hclaim.
  specialize (Hclaim [Demo.entry Demo.app] Demo.w0 _ _ _ _ _
                ltac:(discriminate) eq_refl eq_refl).
  vm_compute in Hclaim. discriminate.
Qed.

Lemma compileTemplates_exports_witness :
  exists statements,
    emitted (calls (snd (compileTemplates (collaborators := Demo.plain)
                           [Demo.entry Demo.app; Demo.entry Demo.hero] Demo.w0)))
    = [("src/app.ngfactory.ts", statements,
        ["viewFactory_App0"; "AppNgFactory"; "viewFactory_Hero0"; "HeroNgFactory"])] /\
    length ["viewFactory_App0"; "AppNgFactory"; "viewFactory_Hero0"; "HeroNgFactory"]
    = 2 * length [Demo.app; Demo.hero].
Proof.
  eexists. split; [reflexivity|].
  destruct (compileTemplates_exports (collaborators := Demo.plain)
              [Demo.entry Demo.app; Demo.entry Demo.hero] Demo.w0) as [Hshape _].
  destruct (Hshape _ _ _ eq_refl) as (vs & _ & _ & Hlen & _). exact Hlen.
Defined.

Lemma compileTemplates_not_component_witness :
  fst (compileTemplates (collaborators := Demo.plain)
         [Demo.entry Demo.app; Demo.entry Demo.highlight; Demo.entry Demo.hero] Demo.w0)
  = Throw (BaseException "Could not compile 'Highlight' because it is not a component.") /\
  emitted (calls (snd (compileTemplates (collaborators := Demo.plain)
            [Demo.entry Demo.app; Demo.entry Demo.highlight; Demo.entry Demo.hero] Demo.w0)))
  = [].
Proof.
  destruct (compileTemplates_not_component (collaborators := Demo.plain)
              [Demo.entry Demo.app] (Demo.entry Demo.highlight) [Demo.entry Demo.hero]
              Demo.w0 eq_refl) as [(e & w' & Hrun & Hsilent) [Hnamed _]].
  split.
  - exact (f_equal fst (Hnamed _ _ eq_refl)).
  - exact (eq_trans (f_equal (fun r => emitted (calls (snd r))) Hrun) Hsilent).
Defined.

Lemma plain_neverThrow : @neverThrow Demo.ast Demo.plain.
Proof. repeat split; intros; simpl; unfold Demo.styles, Demo.parse, Demo.view; simpl; eauto. Qed.

Lemma compileTemplates_module_witness :
  exists source w',
    compileTemplates (collaborators := Demo.plain)
      [Demo.entry Demo.app; Demo.entry Demo.hero] Demo.w0
    = (Return {| SourceModule.moduleUrl := "src/app.ngfactory.ts";
                 SourceModule.source := source |}, w').
Proof.
  destruct (compileTemplates_module (collaborators := Demo.plain)
              (Demo.entry Demo.app) [Demo.entry Demo.hero] Demo.w0) as [_ Hreturns].
  apply Hreturns; [exact plain_neverThrow|].
  repeat constructor.
Defined.

Lemma compileComponent_resolves_styles_witness :
  exists result w',
    _compileComponent (collaborators := Demo.linked) Demo.hero [] [] [] Demo.w0
    = (Return result, w') /\
    moduleUrl (heap w' 0) = "b.css.foo" /\
    moduleUrl (heap w' 1) = "c.css.shim.foo".
Proof.
  destruct (compileComponent_resolves_styles (collaborators := Demo.linked)
              Demo.hero [] [] [] Demo.w0 _ _ _ _ _ _ eq_refl eq_refl eq_refl)
    as (result & w' & Hrun & Hresolved).
  exists result, w'. split; [exact Hrun|].
  assert (Hviews : forall l, l < 2 ->
            forall vdep, vdep ∈ Demo.viewDeps -> assignedPlaceholder vdep <> Some l).
  { intros l Hl vdep Hin. unfold Demo.viewDeps in Hin.
    repeat (apply elem_of_cons in Hin as [->|Hin]); simpl;
      try (intros Heq; inversion Heq; lia).
    now apply elem_of_nil in Hin. }
  split.
  - apply (Hresolved 0 Demo.bCss eq_refl).
    + intros [|[|j]] dep' Hlt Hj; [lia | injection Hj as <-; discriminate | discriminate].
    + apply (Hviews 0). lia.
  - apply (Hresolved 1 Demo.cCss eq_refl).
    + intros [|[|j]] dep' Hlt Hj; [lia | lia | discriminate].
    + apply (Hviews 1). lia.
Defined.

Lemma resolveViewStatements_resolves_witness :
  exists w',
    _resolveViewStatements (collaborators := Demo.plain) Demo.appView Demo.w0
    = (Return (ViewCompileResult.statements Demo.appView), w') /\
    moduleUrl (heap w' 2) = "src/hero.ngfactory.foo" /\
    name (heap w' 3) = "AppNgFactory" /\
    moduleUrl (heap w' 3) = "src/app.ngfactory.ts" /\
    heap w' 4 = Demo.h0 4.
Proof.
  destruct (resolveViewStatements_resolves (collaborators := Demo.plain) Demo.appView Demo.w0)
    as (w' & Hrun & _ & Hview & Hfactory & Hother).
  exists w'. split; [exact Hrun|].
  split; [|split; [|split]].
  - apply (Hview 0 Demo.hero 2 eq_refl).
    intros [|[|[|j]]] dep' Hlt Hj; try lia; try discriminate;
      injection Hj as <-; discriminate.
  - apply (Hfactory 1 (type Demo.app) 3 eq_refl).
    intros [|[|[|j]]] dep' Hlt Hj; try lia; try discriminate;
      injection Hj as <-; discriminate.
  - apply (Hfactory 1 (type Demo.app) 3 eq_refl).
    intros [|[|[|j]]] dep' Hlt Hj; try lia; try discriminate;
      injection Hj as <-; discriminate.
  - apply Hother. intros dep Hin. simpl in Hin. unfold Demo.viewDeps in Hin.
    repeat (apply elem_of_cons in Hin as [->|Hin]); simpl; try discriminate.
    now apply elem_of_nil in Hin.
Defined.

Lemma loadAndCompileStylesheet_resolves_witness :
  exists result w',
    loadAndCompileStylesheet (collaborators := Demo.linked) "a.css" true ".ts" Demo.w0
    = (result, w') /\
    moduleUrl (heap w' 0) = "b.css.ts" /\
    moduleUrl (heap w' 1) = "c.css.shim.ts".
Proof.
  destruct (loadAndCompileStylesheet_resolves (collaborators := Demo.linked)
              "a.css" true ".ts" Demo.w0 _ _ _ eq_refl eq_refl)
    as (result & w' & Hrun & _ & Hresolved).
  exists result, w'. split; [exact Hrun|]. split.
  - refine (proj1 (Hresolved 0 Demo.bCss eq_refl _)).
    intros [|[|j]] dep' Hlt Hj; [lia | injection Hj as <-; discriminate | discriminate].
  - refine (proj1 (Hresolved 1 Demo.cCss eq_refl _)).
    intros [|[|j]] dep' Hlt Hj; [lia | lia | discriminate].
Defined.

Lemma loadAndCompileStylesheet_importedUrls_witness :
  exists result w',
    loadAndCompileStylesheet (collaborators := Demo.linked) "a.css" true ".ts" Demo.w0
    = (Return result, w') /\
    StyleSheetSourceWithImports.importedUrls result = ["b.css"; "c.css"]%string.
Proof.
  destruct (loadAndCompileStylesheet_importedUrls (collaborators := Demo.linked)
              "a.css" true ".ts" Demo.w0 _ _ _ eq_refl eq_refl) as [_ Hreturns].
  exact (Hreturns _ eq_refl).
Defined.

Lemma loadAndCompileStylesheet_module_witness :
  exists source w',
    loadAndCompileStylesheet (collaborators := Demo.linked) "a.css" true ".ts" Demo.w0
    = (Return {| StyleSheetSourceWithImports.source :=
                   {| SourceModule.moduleUrl := "a.css.shim.ts";
                      SourceModule.source := source |};
                 StyleSheetSourceWithImports.importedUrls := ["b.css"; "c.css"]%string |}, w').
Proof.
  destruct (loadAndCompileStylesheet_module (collaborators := Demo.linked)
              "a.css" true ".ts" Demo.w0 _ _ _ eq_refl eq_refl) as [_ Hreturns].
  eexists. exact (Hreturns _ eq_refl).
Defined.

(** * Further properties of the naming rules *)

Section Naming.

Import JsString.
Local Open Scope string_scope.

Lemma string_app_assoc a b c : (a ++ b) ++ c = a ++ (b ++ c).
Proof. induction a; simpl; congruence. Qed.

Lemma string_app_inv_head a b c : a ++ b = a ++ c -> b = c.
Proof. induction a as [|x a IH]; simpl; [auto | intros [= E]; auto]. Qed.

Lemma string_app_inv_tail a b c : a ++ c = b ++ c -> a = b.
Proof.
  revert b. induction a as [|x a IH]; intros [|y b] E; simpl in *.
  - reflexivity.
  - apply (f_equal String.length) in E. simpl in E. rewrite string_length_app in E. lia.
  - apply (f_equal String.length) in E. simpl in E. rewrite string_length_app in E. lia.
  - injection E as -> E. f_equal. now apply IH.
Qed.

Lemma get_at_length a c x : String.get (String.length a) (a ++ String c x) = Some c.
Proof. induction a; simpl; auto. Qed.

Lemma NoDot_no_split a x : ~ NoDot (a ++ "." ++ x).
Proof. intros H. exact (H _ (get_at_length a "."%char x)). Qed.

(** A path splits at its last dot in one way only. *)
Lemma last_dot_unique b1 e1 b2 e2 :
  NoDot e1 -> NoDot e2 -> b1 ++ "." ++ e1 = b2 ++ "." ++ e2 -> b1 = b2 /\ e1 = e2.
Proof.
  intros H1 H2 E. apply (f_equal _splitSuffix) in E.
  rewrite !splitSuffix_dot in E by assumption. now injection E as -> ->.
Qed.

Lemma NoDot_ngfactory : NoDot "ngfactory".
Proof. now apply NoDot_lastIndexOf. Qed.

Lemma ngfactoryModuleUrl_nodot comp :
  NoDot (moduleUrl comp) -> _ngfactoryModuleUrl comp = moduleUrl comp ++ "." ++ "ngfactory".
Proof. intros H. unfold _ngfactoryModuleUrl. now rewrite (splitSuffix_nodot _ H). Qed.

Lemma ngfactoryModuleUrl_dot comp base ext :
  NoDot ext -> moduleUrl comp = base ++ "." ++ ext ->
  _ngfactoryModuleUrl comp = (base ++ ".ngfactory") ++ "." ++ ext.
Proof.
  intros H E. unfold _ngfactoryModuleUrl. rewrite E, (splitSuffix_dot _ _ H). simpl fst.
  simpl snd. now rewrite string_app_assoc.
Qed.

Lemma ngfactoryModuleUrl_inj comp1 comp2 :
  _ngfactoryModuleUrl comp1 = _ngfactoryModuleUrl comp2 -> moduleUrl comp1 = moduleUrl comp2.
Proof.
  intros E.
  destruct (last_dot_split (moduleUrl comp1)) as [N1 | (b1 & e1 & E1 & N1)];
    destruct (last_dot_split (moduleUrl comp2)) as [N2 | (b2 & e2 & E2 & N2)].
  - rewrite !ngfactoryModuleUrl_nodot in E by assumption.
    now apply string_app_inv_tail in E.
  - rewrite (ngfactoryModuleUrl_nodot _ N1), (ngfactoryModuleUrl_dot _ _ _ N2 E2) in E.
    apply (last_dot_unique _ _ _ _ NoDot_ngfactory N2) in E as [E _].
    rewrite E in N1. now apply NoDot_no_split in N1.
  - rewrite (ngfactoryModuleUrl_nodot _ N2), (ngfactoryModuleUrl_dot _ _ _ N1 E1) in E.
    apply (last_dot_unique _ _ _ _ N1 NoDot_ngfactory) in E as [E _].
    rewrite <- E in N2. now apply NoDot_no_split in N2.
  - rewrite (ngfactoryModuleUrl_dot _ _ _ N1 E1), (ngfactoryModuleUrl_dot _ _ _ N2 E2) in E.
    apply (last_dot_unique _ _ _ _ N1 N2) in E as [E ->].
    apply string_app_inv_tail in E. now rewrite E1, E2, E.
Qed.

(** X1: two identifiers with the same factory module URL have the same module
    URL: the factory modules of different source modules never collide. *)
Theorem ngfactoryModuleUrl_injective comp1 comp2 :
  _ngfactoryModuleUrl comp1 = _ngfactoryModuleUrl comp2 -> moduleUrl comp1 = moduleUrl comp2.
Proof. apply ngfactoryModuleUrl_inj. Qed.

(** X2: splitting a factory module URL again: when the module URL has a dot,
    the factory URL has the same suffix and its base is the old base followed
    by [.ngfactory]; when it has none, the factory URL splits into the module
    URL and the suffix [.ngfactory]. *)
Theorem ngfactoryModuleUrl_resplit comp :
  (NoDot (moduleUrl comp) /\
   _splitSuffix (_ngfactoryModuleUrl comp) = (moduleUrl comp, ".ngfactory")) \/
  (exists base ext,
      NoDot ext /\
      _splitSuffix (moduleUrl comp) = (base, "." ++ ext) /\
      _splitSuffix (_ngfactoryModuleUrl comp) = (base ++ ".ngfactory", "." ++ ext)).
Proof.
  destruct (last_dot_split (moduleUrl comp)) as [N | (base & ext & E & N)].
  - left. split; [exact N|]. rewrite (ngfactoryModuleUrl_nodot _ N).
    apply (splitSuffix_dot _ _ NoDot_ngfactory).
  - right. exists base, ext. split; [exact N|]. split.
    + rewrite E. now apply splitSuffix_dot.
    + rewrite (ngfactoryModuleUrl_dot _ _ _ N E). now apply splitSuffix_dot.
Qed.

(** X3: identifiers with the same component-factory name have the same
    name. *)
Theorem componentFactoryName_injective comp1 comp2 :
  _componentFactoryName comp1 = _componentFactoryName comp2 -> name comp1 = name comp2.
Proof. apply string_app_inv_tail. Qed.

(** X4: for one shim flag and one suffix, stylesheets with the same styles
    module URL are the same stylesheet. *)
Theorem stylesModuleUrl_injective url1 url2 shim suffix :
  _stylesModuleUrl url1 shim suffix = _stylesModuleUrl url2 shim suffix -> url1 = url2.
Proof.
  unfold _stylesModuleUrl. destruct shim; intros E; now apply string_app_inv_tail in E.
Qed.

(** X5: for one stylesheet and one suffix the shimmed and the unshimmed module
    URL differ; yet the flag is not recoverable from the URL alone, since the
    unshimmed URL of [url.shim] is the shimmed URL of [url]. *)
Theorem stylesModuleUrl_shim url suffix :
  _stylesModuleUrl url true suffix <> _stylesModuleUrl url false suffix /\
  _stylesModuleUrl (url ++ ".shim") false suffix = _stylesModuleUrl url true suffix.
Proof.
  unfold _stylesModuleUrl. split.
  - intros E. apply string_app_inv_head in E.
    apply (f_equal String.length) in E. rewrite string_length_app in E. simpl in E. lia.
  - apply string_app_assoc.
Qed.

(** X6: a styles module URL built with the suffix of a containing module URL
    that has a dot splits off that same suffix again: the stylesheet module
    is in the file-extension family of its importer, whatever the stylesheet
    URL and the shim flag. *)
Theorem stylesModuleUrl_keeps_suffix containingModuleUrl stylesheetUrl shim :
  snd (_splitSuffix containingModuleUrl) <> "" ->
  snd (_splitSuffix (_stylesModuleUrl stylesheetUrl shim
                       (snd (_splitSuffix containingModuleUrl))))
  = snd (_splitSuffix containingModuleUrl).
Proof.
  intros Hsuffix.
  destruct (last_dot_split containingModuleUrl) as [N | (base & ext & -> & N)].
  - now rewrite (splitSuffix_nodot _ N) in Hsuffix.
  - rewrite (splitSuffix_dot _ _ N). simpl snd. unfold _stylesModuleUrl.
    destruct shim.
    + rewrite <- string_app_assoc. now rewrite (splitSuffix_dot _ _ N).
    + now rewrite (splitSuffix_dot _ _ N).
Qed.

End Naming.

Lemma stylesModuleUrl_keeps_suffix_witness :
  snd (_splitSuffix (_stylesModuleUrl "b.css" true (snd (_splitSuffix "src/hero.foo"))))
  = ".foo"%string.
Proof.
  apply (stylesModuleUrl_keeps_suffix "src/hero.foo" "b.css" true). discriminate.
Defined.

Lemma ngfactoryModuleUrl_injective_witness :
  _ngfactoryModuleUrl (mkIdentifier "A" "a/b.ts") = _ngfactoryModuleUrl (mkIdentifier "B" "a/b.ts") /\
  moduleUrl (mkIdentifier "A" "a/b.ts") = moduleUrl (mkIdentifier "B" "a/b.ts").
Proof. split; [reflexivity|]. apply ngfactoryModuleUrl_injective. reflexivity. Defined.

Lemma componentFactoryName_injective_witness :
  _componentFactoryName (mkIdentifier "App" "x.ts") = _componentFactoryName (mkIdentifier "App" "y.ts") /\
  name (mkIdentifier "App" "x.ts") = name (mkIdentifier "App" "y.ts").
Proof. split; [reflexivity|]. apply componentFactoryName_injective. reflexivity. Defined.

Lemma stylesModuleUrl_injective_witness :
  _stylesModuleUrl "x.css" true ".ts" = _stylesModuleUrl "x.css" true ".ts" /\
  "x.css"%string = "x.css"%string.
Proof.
  split; [reflexivity|].
  apply (stylesModuleUrl_injective "x.css" "x.css" true ".ts"). reflexivity.
Defined.

(** * Further properties of the compiler *)

Section Composition.

Context `{collaborators : Collaborators}.

(** ** Inversion of [_compileComponent] *)

Lemma compileComponent_Return_inv compMeta directives pipes targetStatements (w : World)
    result w' :
  _compileComponent compMeta directives pipes targetStatements w = (Return result, w') ->
  exists styleResult h1 parsedTemplate h2 viewResult h3,
    styleCompiler_compileComponent compMeta (heap w) = (Return styleResult, h1) /\
    templateParser_parse compMeta (template_source (template compMeta)) directives pipes
      (name (type compMeta)) h1 = (Return parsedTemplate, h2) /\
    viewCompiler_compileComponent compMeta parsedTemplate
      (o.variable (StylesCompileResult.stylesVar styleResult)) pipes h2
    = (Return viewResult, h3).
Proof.
  unfold _compileComponent. intros Hrun.
  apply bind_Return_inv in Hrun as (styleResult & w1 & Hstyle & Hrun).
  apply invoke_Return_inv in Hstyle as (h1 & Hstyle & ->).
  apply bind_Return_inv in Hrun as (parsedTemplate & w2 & Hparse & Hrun).
  apply invoke_Return_inv in Hparse as (h2 & Hparse & ->).
  apply bind_Return_inv in Hrun as (viewResult & w3 & Hview & Hrun).
  apply invoke_Return_inv in Hview as (h3 & Hview & ->).
  simpl in *. eauto 10.
Qed.

Lemma compileComponent_Throw_inv compMeta directives pipes targetStatements (w : World) e w' :
  _compileComponent compMeta directives pipes targetStatements w = (Throw e, w') ->
  thrownByCollaborator e.
Proof.
  intros Hrun. unfold thrownByCollaborator.
  destruct (styleCompiler_compileComponent compMeta (heap w)) as [[styleResult|e1] h1] eqn:E1.
  2:{ unfold _compileComponent, bind, invoke in Hrun. rewrite E1 in Hrun.
      injection Hrun as <- _. eauto 10. }
  destruct (templateParser_parse compMeta (template_source (template compMeta)) directives
              pipes (name (type compMeta)) h1) as [[parsedTemplate|e2] h2] eqn:E2.
  2:{ unfold _compileComponent, bind, invoke in Hrun. rewrite E1 in Hrun. simpl in Hrun.
      rewrite E2 in Hrun. injection Hrun as <- _. eauto 15. }
  destruct (viewCompiler_compileComponent compMeta parsedTemplate
              (o.variable (StylesCompileResult.stylesVar styleResult)) pipes h2)
    as [[viewResult|e3] h3] eqn:E3.
  2:{ unfold _compileComponent, bind, invoke in Hrun. rewrite E1 in Hrun. simpl in Hrun.
      rewrite E2 in Hrun. simpl in Hrun. rewrite E3 in Hrun. injection Hrun as <- _.
      eauto 15. }
  rewrite (compileComponent_run _ _ _ targetStatements _ _ _ _ _ _ _ E1 E2 E3) in Hrun.
  discriminate.
Qed.

(** ** Inversion of one round of the loop of [compileTemplates] *)

Lemma assertComponent_Return_inv meta (w : World) u w' :
  _assertComponent meta w = (Return u, w') -> isComponent meta = true /\ w' = w.
Proof.
  unfold _assertComponent. destruct (isComponent meta); simpl; [|discriminate].
  now intros [= _ <-].
Qed.

Lemma each_Return_full statements exportedVars componentWithDirs (w : World)
    statements' exportedVars' w' :
  compileTemplates_each (statements, exportedVars) componentWithDirs w
  = (Return (statements', exportedVars'), w') ->
  let compMeta := NormalizedComponentWithViewDirectives.component componentWithDirs in
  let directives := NormalizedComponentWithViewDirectives.directives componentWithDirs in
  let pipes := NormalizedComponentWithViewDirectives.pipes componentWithDirs in
  isComponent compMeta = true /\
  exists styleResult parsedTemplate viewResult hostMeta hostStyles hostParsed hostView h5 h6,
    createHostComponentMeta (type compMeta) (selector compMeta) = Return hostMeta /\
    viewCompiler_compileComponent hostMeta hostParsed
      (o.variable (StylesCompileResult.stylesVar hostStyles)) [] h5
    = (Return hostView, h6) /\
    statements'
    = ((((statements ++ StylesCompileResult.statements styleResult)
           ++ ViewCompileResult.statements viewResult)
          ++ StylesCompileResult.statements hostStyles)
         ++ ViewCompileResult.statements hostView)
        ++ [componentFactoryDecl compMeta (_componentFactoryName (type compMeta))
              (ViewCompileResult.viewFactoryVar hostView)] /\
    exportedVars'
    = exportedVars ++ [ViewCompileResult.viewFactoryVar viewResult;
                       _componentFactoryName (type compMeta)] /\
    calls w'
    = calls w ++
      [StyleCompileComponent compMeta;
       TemplateParse compMeta (template_source (template compMeta)) directives pipes
         (name (type compMeta));
       ViewCompileComponent compMeta parsedTemplate
         (o.variable (StylesCompileResult.stylesVar styleResult)) pipes;
       CreateHostComponentMeta (type compMeta) (selector compMeta);
       StyleCompileComponent hostMeta;
       TemplateParse hostMeta (template_source (template hostMeta)) [compMeta] []
         (name (type hostMeta));
       ViewCompileComponent hostMeta hostParsed
         (o.variable (StylesCompileResult.stylesVar hostStyles)) []].
Proof.
  intros Hrun compMeta directives pipes. unfold compileTemplates_each in Hrun.
  fold compMeta directives pipes in Hrun.
  apply bind_Return_inv in Hrun as (u & w1 & Hassert & Hrun).
  apply assertComponent_Return_inv in Hassert as [Hcomp ->].
  split; [exact Hcomp|].
  apply bind_Return_inv in Hrun as ([v stmts1] & w2 & Hown & Hrun).
  pose proof (compileComponent_Return_inv _ _ _ _ _ _ _ Hown)
    as (styleResult & h1 & parsedTemplate & h2 & viewResult & h3 & E1 & E2 & E3).
  rewrite (compileComponent_run _ _ _ statements _ _ _ _ _ _ _ E1 E2 E3) in Hown.
  injection Hown as <- <- <-.
  apply bind_Return_inv in Hrun as (hostMeta & w3 & Hhost & Hrun).
  unfold consult in Hhost. apply invoke_Return_inv in Hhost as (h' & Hhost & ->).
  injection Hhost as Hhost <-.
  apply bind_Return_inv in Hrun as ([hv stmts2] & w4 & Hhostc & Hrun).
  pose proof (compileComponent_Return_inv _ _ _ _ _ _ _ Hhostc)
    as (hostStyles & h4 & hostParsed & h5 & hostView & h6 & E4 & E5 & E6).
  rewrite (compileComponent_run _ _ _ _ _ _ _ _ _ _ _ E4 E5 E6) in Hhostc.
  injection Hhostc as <- <- <-.
  injection Hrun as <- <- <-. simpl.
  exists styleResult, parsedTemplate, viewResult, hostMeta, hostStyles, hostParsed, hostView,
    h5, h6.
  split; [exact Hhost|]. split; [exact E6|]. split; [reflexivity|].
  split; [now rewrite <- app_assoc|].
  now rewrite <- !app_assoc.
Qed.

Lemma each_Throw_inv locals componentWithDirs (w : World) e w' :
  compileTemplates_each locals componentWithDirs w = (Throw e, w') ->
  (isComponent (NormalizedComponentWithViewDirectives.component componentWithDirs) = false /\
   e = BaseException
         ("Could not compile '"
          ++ name (type (NormalizedComponentWithViewDirectives.component componentWithDirs))
          ++ "' because it is not a component.")%string) \/
  thrownByCollaborator e.
Proof.
  destruct locals as [statements exportedVars]. intros Hrun.
  destruct (isComponent (NormalizedComponentWithViewDirectives.component componentWithDirs))
    eqn:Hcomp.
  2:{ left. rewrite (each_not_component _ _ _ Hcomp) in Hrun. now injection Hrun as <- _. }
  right. unfold compileTemplates_each, bind at 1, _assertComponent in Hrun.
  rewrite Hcomp in Hrun. simpl in Hrun. unfold bind at 1 in Hrun.
  match type of Hrun with context [_compileComponent ?m ?d ?p ?t ?w0] =>
    destruct (_compileComponent m d p t w0) as [[[v stmts1]|e1] w2] eqn:Hown end.
  2:{ injection Hrun as <- _. exact (compileComponent_Throw_inv _ _ _ _ _ _ _ Hown). }
  unfold bind at 1, consult, invoke in Hrun.
  destruct (createHostComponentMeta _ _) as [hostMeta|e2] eqn:Hhost.
  2:{ injection Hrun as <- _. left. eauto. }
  unfold bind at 1 in Hrun.
  match type of Hrun with context [_compileComponent ?m ?d ?p ?t ?w0] =>
    destruct (_compileComponent m d p t w0) as [[[hv stmts2]|e3] w4] eqn:Hhostc end.
  2:{ injection Hrun as <- _. exact (compileComponent_Throw_inv _ _ _ _ _ _ _ Hhostc). }
  discriminate.
Qed.

(** ** The whole loop *)

Lemma loop_Throw_inv components locals (w : World) e w' :
  foldM compileTemplates_each components locals w = (Throw e, w') ->
  (exists pre bad post,
      components = pre ++ bad :: post /\
      Forall (fun c => isComponent (NormalizedComponentWithViewDirectives.component c) = true)
        pre /\
      isComponent (NormalizedComponentWithViewDirectives.component bad) = false /\
      e = BaseException
            ("Could not compile '"
             ++ name (type (NormalizedComponentWithViewDirectives.component bad))
             ++ "' because it is not a component.")%string) \/
  thrownByCollaborator e.
Proof.
  revert locals w. induction components as [|c components IH]; intros locals w Hrun;
    simpl in Hrun; [discriminate|].
  unfold bind in Hrun.
  destruct (compileTemplates_each locals c w) as [[[stmts ev]|e1] w1] eqn:Heach.
  - destruct locals as [stmts0 ev0].
    apply each_Return_full in Heach as [Hcomp _].
    apply IH in Hrun as [(pre & bad & post & -> & Hpre & Hbad & ->) | Hthrown]; [left|now right].
    exists (c :: pre), bad, post. repeat split; auto.
  - injection Hrun as <- _.
    apply each_Throw_inv in Heach as [[Hbad ->] | Hthrown]; [left|now right].
    exists [], c, components. repeat split; auto.
Qed.

Lemma loop_Return_full components statements exportedVars (w : World)
    statements' exportedVars' w' :
  foldM compileTemplates_each components (statements, exportedVars) w
  = (Return (statements', exportedVars'), w') ->
  exists blocks log,
    Forall2 componentBlock components blocks /\
    statements' = statements ++ concat blocks /\
    calls w' = calls w ++ log /\
    length log = 7 * length components.
Proof.
  revert statements exportedVars w.
  induction components as [|c components IH]; intros statements exportedVars w Hrun;
    simpl in Hrun.
  - injection Hrun as <- _ <-. exists [], []. rewrite !app_nil_r. repeat split. constructor.
  - apply bind_Return_inv in Hrun as ([stmts ev] & w1 & Heach & Hrun).
    apply each_Return_full in Heach
      as (_ & sr & pt & vr & hostMeta & hs & hp & hv & h5 & h6
          & Hhost & Hview & -> & _ & Hlog).
    apply IH in Hrun as (blocks & log & Hblocks & -> & -> & Hlen).
    eexists (_ :: blocks), (_ ++ log). split; [|split; [|split]].
    + constructor; [|exact Hblocks]. unfold componentBlock.
      exists ((StylesCompileResult.statements sr ++ ViewCompileResult.statements vr)
                ++ StylesCompileResult.statements hs ++ ViewCompileResult.statements hv),
        hostMeta, hp, (o.variable (StylesCompileResult.stylesVar hs)), h5, hv, h6.
      split; [exact Hhost|]. split; [exact Hview|]. reflexivity.
    + simpl. now rewrite <- !app_assoc.
    + rewrite Hlog. now rewrite <- app_assoc.
    + rewrite length_app, Hlen. simpl. lia.
Qed.

(** X7: [compileTemplates] adds two exceptions of its own and nothing else.
    When it throws, either the list was empty and the exception is the
    [BaseException] "No components given"; or the exception names the first
    entry that is not flagged as a component, all entries before it being
    components; or it is an exception that a collaborator threw, passed on
    as it is. *)
Theorem compileTemplates_failures components (w : World) e w' :
  compileTemplates components w = (Throw e, w') ->
  (components = [] /\ e = BaseException "No components given") \/
  (exists pre bad post,
      components = pre ++ bad :: post /\
      Forall (fun c => isComponent (NormalizedComponentWithViewDirectives.component c) = true)
        pre /\
      isComponent (NormalizedComponentWithViewDirectives.component bad) = false /\
      e = BaseException
            ("Could not compile '"
             ++ name (type (NormalizedComponentWithViewDirectives.component bad))
             ++ "' because it is not a component.")%string) \/
  thrownByCollaborator e.
Proof.
  intros Hrun. destruct components as [|first rest].
  - left. now injection Hrun as <- _.
  - right. unfold compileTemplates, bind at 1 in Hrun.
    destruct (foldM compileTemplates_each (first :: rest) ([], []) w)
      as [[[stmts ev]|e1] w1] eqn:Hloop.
    + right. unfold _codegenSourceModule, bind, consult, invoke in Hrun.
      destruct (outputEmitter_emitStatements _ _ _ _) as [source|e2] eqn:Hemit;
        [discriminate|].
      injection Hrun as <- _. unfold thrownByCollaborator. eauto 15.
    + injection Hrun as <- _. exact (loop_Throw_inv _ _ _ _ _ Hloop).
Qed.

(** X8: when [compileTemplates] returns, it has made exactly seven
    collaborator calls per component, none of them to the emitter, and then
    one call to the emitter, for the URL of the module it returns. *)
Theorem compileTemplates_calls components (w : World) m w' :
  compileTemplates components w = (Return m, w') ->
  exists log statements exportedVars,
    calls w'
    = calls w ++ log ++ [EmitStatements (SourceModule.moduleUrl m) statements exportedVars] /\
    length log = 7 * length components /\
    emitted log = [].
Proof.
  intros Hrun. destruct components as [|first rest]; [discriminate|].
  unfold compileTemplates in Hrun.
  apply bind_Return_inv in Hrun as ([stmts ev] & w1 & Hloop & Hrun).
  pose proof (silent_loop (first :: rest) ([], []) w) as Hsilent.
  rewrite Hloop in Hsilent. simpl in Hsilent.
  apply loop_Return_full in Hloop as (blocks & log & _ & _ & Hlog & Hlen).
  unfold _codegenSourceModule, consult in Hrun.
  apply bind_Return_inv in Hrun as (source & w2 & Hemit & Hrun).
  apply invoke_Return_inv in Hemit as (h' & _ & ->).
  injection Hrun as <- <-. simpl.
  exists log, stmts, ev. rewrite Hlog, <- app_assoc. split; [reflexivity|].
  split; [exact Hlen|].
  rewrite Hlog, emitted_app in Hsilent.
  apply (f_equal length) in Hsilent. rewrite length_app in Hsilent.
  destruct (emitted log); [reflexivity | simpl in Hsilent; lia].
Qed.

(** X9: the statements that [compileTemplates] hands to the emitter are one
    block per component, in the order of the components; each block ends with
    the declaration of the component factory, under the component-factory
    name, and the declaration refers to a view factory that the view compiler
    returned for the host metadata made from the component's type and
    selector, compiled without pipes. *)
Theorem compileTemplates_statements components (w : World) m w' :
  compileTemplates components w = (Return m, w') ->
  exists blocks exportedVars,
    Forall2 componentBlock components blocks /\
    emitted (calls w')
    = emitted (calls w) ++ [(SourceModule.moduleUrl m, concat blocks, exportedVars)].
Proof.
  intros Hrun. destruct components as [|first rest]; [discriminate|].
  unfold compileTemplates in Hrun.
  apply bind_Return_inv in Hrun as ([stmts ev] & w1 & Hloop & Hrun).
  pose proof (silent_loop (first :: rest) ([], []) w) as Hsilent.
  rewrite Hloop in Hsilent. simpl in Hsilent.
  apply loop_Return_full in Hloop as (blocks & log & Hblocks & -> & _ & _).
  unfold _codegenSourceModule, consult in Hrun.
  apply bind_Return_inv in Hrun as (source & w2 & Hemit & Hrun).
  apply invoke_Return_inv in Hemit as (h' & _ & ->).
  injection Hrun as <- <-. simpl.
  exists blocks, ev. split; [exact Hblocks|].
  now rewrite emitted_app, Hsilent.
Qed.

(** X10: one round of the loop of [compileTemplates] calls, in this order:
    the style compiler, the template parser and the view compiler for the
    component, with the entry's directives and pipes; [createHostComponentMeta]
    for its type and selector; then the three again for the host metadata,
    whose only directive is the component itself and which has no pipes. *)
Theorem compileTemplates_each_calls locals componentWithDirs (w : World) locals' w' :
  compileTemplates_each locals componentWithDirs w = (Return locals', w') ->
  let compMeta := NormalizedComponentWithViewDirectives.component componentWithDirs in
  exists parsedTemplate styles hostMeta hostParsed hostStyles,
    createHostComponentMeta (type compMeta) (selector compMeta) = Return hostMeta /\
    calls w'
    = calls w ++
      [StyleCompileComponent compMeta;
       TemplateParse compMeta (template_source (template compMeta))
         (NormalizedComponentWithViewDirectives.directives componentWithDirs)
         (NormalizedComponentWithViewDirectives.pipes componentWithDirs)
         (name (type compMeta));
       ViewCompileComponent compMeta parsedTemplate styles
         (NormalizedComponentWithViewDirectives.pipes componentWithDirs);
       CreateHostComponentMeta (type compMeta) (selector compMeta);
       StyleCompileComponent hostMeta;
       TemplateParse hostMeta (template_source (template hostMeta)) [compMeta] []
         (name (type hostMeta));
       ViewCompileComponent hostMeta hostParsed hostStyles []].
Proof.
  destruct locals as [statements exportedVars], locals' as [statements' exportedVars'].
  intros Hrun compMeta.
  apply each_Return_full in Hrun
    as (_ & sr & pt & vr & hostMeta & hs & hp & hv & h5 & h6 & Hhost & _ & _ & _ & Hlog).
  eauto 10.
Qed.

(** ** [loadAndCompileStylesheet] *)

Lemma loadAndCompileStylesheet_Return_inv stylesheetUrl shim suffix (w : World) result w' :
  loadAndCompileStylesheet stylesheetUrl shim suffix w = (Return result, w') ->
  exists cssText compileResult h1,
    xhr_get stylesheetUrl = Return cssText /\
    styleCompiler_compileStylesheet stylesheetUrl cssText shim (heap w)
    = (Return compileResult, h1) /\
    SourceModule.moduleUrl (StyleSheetSourceWithImports.source result)
    = _stylesModuleUrl stylesheetUrl shim suffix.
Proof.
  intros Hrun.
  destruct (xhr_get stylesheetUrl) as [cssText|e1] eqn:Hget.
  2:{ unfold loadAndCompileStylesheet, bind, consult, invoke in Hrun.
      rewrite Hget in Hrun. discriminate. }
  destruct (styleCompiler_compileStylesheet stylesheetUrl cssText shim (heap w))
    as [[compileResult|e2] h1] eqn:Hcompile.
  2:{ unfold loadAndCompileStylesheet, bind, consult, invoke in Hrun.
      rewrite Hget in Hrun. simpl in Hrun. rewrite Hcompile in Hrun. discriminate. }
  rewrite (loadAndCompileStylesheet_run _ _ suffix _ _ _ _ Hget Hcompile) in Hrun.
  cbv zeta in Hrun.
  destruct (outputEmitter_emitStatements _ _ _ _); [|discriminate].
  injection Hrun as <- _. exists cssText, compileResult, h1. auto.
Qed.

(** X11: [loadAndCompileStylesheet] adds no exception of its own. When the
    promise is rejected, the reason is that of the rejected fetch, and then
    neither the style compiler nor the emitter was called and the store is
    untouched; or it is what the style compiler threw, and then the emitter
    was not called; or it is what the emitter threw, and then the
    placeholders of the dependencies have already been assigned. *)
Theorem loadAndCompileStylesheet_failures stylesheetUrl shim suffix (w : World) e w' :
  loadAndCompileStylesheet stylesheetUrl shim suffix w = (Throw e, w') ->
  (xhr_get stylesheetUrl = Throw e /\
   heap w' = heap w /\
   calls w' = calls w ++ [XhrGet stylesheetUrl]) \/
  (exists cssText h1,
      xhr_get stylesheetUrl = Return cssText /\
      styleCompiler_compileStylesheet stylesheetUrl cssText shim (heap w) = (Throw e, h1) /\
      heap w' = h1 /\
      calls w' = calls w ++ [XhrGet stylesheetUrl;
                             StyleCompileStylesheet stylesheetUrl cssText shim]) \/
  (exists cssText compileResult h1,
      xhr_get stylesheetUrl = Return cssText /\
      styleCompiler_compileStylesheet stylesheetUrl cssText shim (heap w)
      = (Return compileResult, h1) /\
      outputEmitter_emitStatements (_stylesModuleUrl stylesheetUrl shim suffix)
        (StylesCompileResult.statements compileResult)
        [StylesCompileResult.stylesVar compileResult] (heap w') = Throw e /\
      heap w' = fold_left (resolveStyleDependency suffix)
                  (StylesCompileResult.dependencies compileResult) h1).
Proof.
  intros Hrun.
  destruct (xhr_get stylesheetUrl) as [cssText|e1] eqn:Hget.
  2:{ left. unfold loadAndCompileStylesheet, bind, consult, invoke in Hrun.
      rewrite Hget in Hrun. now injection Hrun as <- <-. }
  right.
  destruct (styleCompiler_compileStylesheet stylesheetUrl cssText shim (heap w))
    as [[compileResult|e2] h1] eqn:Hcompile.
  2:{ left. unfold loadAndCompileStylesheet, bind, consult, invoke in Hrun.
      rewrite Hget in Hrun. simpl in Hrun. rewrite Hcompile in Hrun.
      injection Hrun as <- <-. simpl. exists cssText, h1. rewrite <- app_assoc. auto. }
  right.
  rewrite (loadAndCompileStylesheet_run _ _ suffix _ _ _ _ Hget Hcompile) in Hrun.
  cbv zeta in Hrun.
  destruct (outputEmitter_emitStatements _ _ _ _) as [source|e3] eqn:Hemit; [discriminate|].
  injection Hrun as <- <-. simpl. exists cssText, compileResult, h1. auto.
Qed.

(** X12: the caller's contract for recursion. For a dependency that
    [loadAndCompileStylesheet] found, calling [loadAndCompileStylesheet] again
    with the dependency's URL (the entry of [importedUrls] at the same index),
    the dependency's shim flag and the same suffix returns a module whose URL
    is the one written into the dependency's placeholder. *)
Theorem loadAndCompileStylesheet_imports_resolve stylesheetUrl shim suffix (w : World)
    cssText compileResult h1 result w' i dep (w2 : World) result2 w2' :
  xhr_get stylesheetUrl = Return cssText ->
  styleCompiler_compileStylesheet stylesheetUrl cssText shim (heap w)
  = (Return compileResult, h1) ->
  loadAndCompileStylesheet stylesheetUrl shim suffix w = (Return result, w') ->
  StylesCompileResult.dependencies compileResult !! i = Some dep ->
  (forall j dep', i < j -> StylesCompileResult.dependencies compileResult !! j = Some dep' ->
                  StylesCompileDependency.valuePlaceholder dep'
                  <> StylesCompileDependency.valuePlaceholder dep) ->
  (forall importedUrl,
      StyleSheetSourceWithImports.importedUrls result !! i = Some importedUrl ->
      loadAndCompileStylesheet importedUrl (StylesCompileDependency.isShimmed dep) suffix w2
      = (Return result2, w2') ->
      SourceModule.moduleUrl (StyleSheetSourceWithImports.source result2)
      = moduleUrl (heap w' (StylesCompileDependency.valuePlaceholder dep))) /\
  StyleSheetSourceWithImports.importedUrls result !! i
  = Some (StylesCompileDependency.moduleUrl dep).
Proof.
  intros Hget Hcompile Hrun Hi Hlater.
  rewrite (loadAndCompileStylesheet_run _ _ suffix _ _ _ _ Hget Hcompile) in Hrun.
  cbv zeta in Hrun.
  destruct (outputEmitter_emitStatements _ _ _ _); [|discriminate].
  injection Hrun as <- <-. simpl.
  assert (Hurl : map StylesCompileDependency.moduleUrl
                   (StylesCompileResult.dependencies compileResult) !! i
                 = Some (StylesCompileDependency.moduleUrl dep))
    by (now rewrite list_lookup_fmap, Hi).
  split; [|exact Hurl].
  intros importedUrl Himported Hrun2. rewrite Hurl in Himported. injection Himported as <-.
  apply loadAndCompileStylesheet_Return_inv in Hrun2 as (_ & _ & _ & _ & _ & ->).
  now rewrite (styles_last_write _ _ _ i dep Hi Hlater).
Qed.

(** X13: the import of a component's stylesheet and the stylesheet's module
    agree. The URL that [_compileComponent] writes into the placeholder of a
    stylesheet dependency is the URL of the module that
    [loadAndCompileStylesheet] returns for the dependency's URL, its shim flag
    and the suffix of the component's module URL. *)
Theorem compileComponent_import_matches_module compMeta directives pipes targetStatements
    (w : World) styleResult h1 parsedTemplate h2 viewResult h3 i dep
    (w2 : World) result2 w2' :
  styleCompiler_compileComponent compMeta (heap w) = (Return styleResult, h1) ->
  templateParser_parse compMeta (template_source (template compMeta)) directives pipes
    (name (type compMeta)) h1 = (Return parsedTemplate, h2) ->
  viewCompiler_compileComponent compMeta parsedTemplate
    (o.variable (StylesCompileResult.stylesVar styleResult)) pipes h2
    = (Return viewResult, h3) ->
  StylesCompileResult.dependencies styleResult !! i = Some dep ->
  (forall j dep', i < j -> StylesCompileResult.dependencies styleResult !! j = Some dep' ->
                  StylesCompileDependency.valuePlaceholder dep'
                  <> StylesCompileDependency.valuePlaceholder dep) ->
  (forall vdep, vdep ∈ ViewCompileResult.dependencies viewResult ->
                assignedPlaceholder vdep
                <> Some (StylesCompileDependency.valuePlaceholder dep)) ->
  loadAndCompileStylesheet (StylesCompileDependency.moduleUrl dep)
    (StylesCompileDependency.isShimmed dep)
    (snd (_splitSuffix (moduleUrl (type compMeta)))) w2 = (Return result2, w2') ->
  SourceModule.moduleUrl (StyleSheetSourceWithImports.source result2)
  = moduleUrl (heap (snd (_compileComponent compMeta directives pipes targetStatements w))
                 (StylesCompileDependency.valuePlaceholder dep)).
Proof.
  intros Hstyle Hparse Hview Hi Hlater Hviews Hrun2.
  rewrite (compileComponent_run _ _ _ targetStatements _ _ _ _ _ _ _ Hstyle Hparse Hview).
  simpl. rewrite views_elsewhere by (apply Forall_forall; exact Hviews).
  rewrite (styles_last_write _ _ _ i dep Hi Hlater).
  now apply loadAndCompileStylesheet_Return_inv in Hrun2 as (_ & _ & _ & _ & _ & ->).
Qed.

(** ** Resolution as a function of the store *)

(** A loop of assignments whose steps either leave a field of the object at
    [l] alone or set it to a value of their own. *)
Lemma fold_field_cases {A B} (step : Heap -> A -> Heap)
    (field : CompileIdentifierMetadata -> B) (l : loc) :
  (forall d, (forall h, field (step h d l) = field (h l)) \/
             (exists v, forall h, field (step h d l) = v)) ->
  forall deps,
    (forall h, field (fold_left step deps h l) = field (h l)) \/
    (exists v, forall h, field (fold_left step deps h l) = v).
Proof.
  intros Hstep deps. induction deps as [|d deps IH]; simpl; [now left|].
  destruct IH as [Hkeep | [v Hset]].
  - destruct (Hstep d) as [Hd | [v Hd]].
    + left. intros h. now rewrite Hkeep, Hd.
    + right. exists v. intros h. now rewrite Hkeep, Hd.
  - right. exists v. intros h. apply Hset.
Qed.

Lemma fold_field_idempotent {A B} (step : Heap -> A -> Heap)
    (field : CompileIdentifierMetadata -> B) (l : loc) deps h :
  (forall d, (forall h, field (step h d l) = field (h l)) \/
             (exists v, forall h, field (step h d l) = v)) ->
  field (fold_left step deps (fold_left step deps h) l) = field (fold_left step deps h l).
Proof.
  intros Hstep. destruct (fold_field_cases step field l Hstep deps) as [Hkeep | [v Hset]].
  - apply Hkeep.
  - now rewrite !Hset.
Qed.

Lemma identifier_eq (a b : CompileIdentifierMetadata) :
  name a = name b -> moduleUrl a = moduleUrl b -> a = b.
Proof. destruct a, b; simpl; congruence. Qed.

Lemma view_step_name d l :
  (forall h, name (resolveViewDependency h d l) = name (h l)) \/
  (exists v, forall h, name (resolveViewDependency h d l) = v).
Proof.
  destruct d as [comp p|comp p|p]; simpl.
  - left. intros h. unfold alter, fn_alter. now destruct (decide (p = l)) as [->|].
  - destruct (decide (p = l)) as [->|Hne].
    + right. eexists. intros h. rewrite !alter_same. simpl. reflexivity.
    + left. intros h. now rewrite !alter_other.
  - now left.
Qed.

Lemma view_step_moduleUrl d l :
  (forall h, moduleUrl (resolveViewDependency h d l) = moduleUrl (h l)) \/
  (exists v, forall h, moduleUrl (resolveViewDependency h d l) = v).
Proof.
  destruct d as [comp p|comp p|p]; simpl; [| |now left];
    (destruct (decide (p = l)) as [->|Hne];
     [right; eexists; intros h; rewrite !alter_same; simpl; reflexivity
     |left; intros h; now rewrite !alter_other]).
Qed.

Lemma views_idempotent deps h l :
  fold_left resolveViewDependency deps (fold_left resolveViewDependency deps h) l
  = fold_left resolveViewDependency deps h l.
Proof.
  apply identifier_eq; apply fold_field_idempotent; intros d;
    [apply view_step_name | apply view_step_moduleUrl].
Qed.

Lemma styles_idempotent suffix deps h l :
  fold_left (resolveStyleDependency suffix) deps
    (fold_left (resolveStyleDependency suffix) deps h) l
  = fold_left (resolveStyleDependency suffix) deps h l.
Proof.
  apply identifier_eq; [now rewrite !styles_keep_name|].
  apply fold_field_idempotent. intros d. unfold resolveStyleDependency.
  destruct (decide (StylesCompileDependency.valuePlaceholder d = l)) as [<-|Hne].
  - right. eexists. intros h'. rewrite alter_same. simpl. reflexivity.
  - left. intros h'. now rewrite alter_other.
Qed.

(** X14: resolving the dependencies of a view a second time changes nothing:
    the store after two runs of [_resolveViewStatements] on the same result is
    the store after one. *)
Theorem resolveViewStatements_idempotent (compileResult : ViewCompileResult.t) (w : World) l :
  heap (snd (_resolveViewStatements compileResult
               (snd (_resolveViewStatements compileResult w)))) l
  = heap (snd (_resolveViewStatements compileResult w)) l.
Proof. rewrite !resolveViewStatements_run. simpl. apply views_idempotent. Qed.

(** X15: the same for [_resolveStyleStatements] with one containing module
    URL. *)
Theorem resolveStyleStatements_idempotent containingModuleUrl
    (compileResult : StylesCompileResult.t) (w : World) l :
  heap (snd (_resolveStyleStatements containingModuleUrl compileResult
               (snd (_resolveStyleStatements containingModuleUrl compileResult w)))) l
  = heap (snd (_resolveStyleStatements containingModuleUrl compileResult w)) l.
Proof. rewrite !resolveStyleStatements_run. simpl. apply styles_idempotent. Qed.

(** X16: [_resolveStyleStatements] returns the statements of the result as
    they are, calls no collaborator, changes the name of no object, and
    changes no object that is not the placeholder of one of the
    dependencies. *)
Theorem resolveStyleStatements_frame containingModuleUrl
    (compileResult : StylesCompileResult.t) (w : World) :
  exists w',
    _resolveStyleStatements containingModuleUrl compileResult w
    = (Return (StylesCompileResult.statements compileResult), w') /\
    calls w' = calls w /\
    (forall l, name (heap w' l) = name (heap w l)) /\
    (forall l,
        (forall dep, dep ∈ StylesCompileResult.dependencies compileResult ->
                     StylesCompileDependency.valuePlaceholder dep <> l) ->
        heap w' l = heap w l).
Proof.
  eexists. split; [apply resolveStyleStatements_run|]. simpl.
  split; [reflexivity|]. split.
  - intros l. apply styles_keep_name.
  - intros l Hnone. apply styles_elsewhere, Forall_forall. exact Hnone.
Qed.

(** X17: what [_compileComponent] returns and leaves behind. It returns the
    view compiler's view-factory name and the caller's statements followed by
    the style compiler's and then the view compiler's. The placeholders of the
    view dependencies are resolved whether or not a stylesheet dependency
    shares them, since the view dependencies are resolved last; and every
    object that is the placeholder of no dependency is as the view compiler
    left it. *)
Theorem compileComponent_result compMeta directives pipes targetStatements (w : World)
    styleResult h1 parsedTemplate h2 viewResult h3 :
  styleCompiler_compileComponent compMeta (heap w) = (Return styleResult, h1) ->
  templateParser_parse compMeta (template_source (template compMeta)) directives pipes
    (name (type compMeta)) h1 = (Return parsedTemplate, h2) ->
  viewCompiler_compileComponent compMeta parsedTemplate
    (o.variable (StylesCompileResult.stylesVar styleResult)) pipes h2
    = (Return viewResult, h3) ->
  exists w',
    _compileComponent compMeta directives pipes targetStatements w
    = (Return (ViewCompileResult.viewFactoryVar viewResult,
               (targetStatements ++ StylesCompileResult.statements styleResult)
                 ++ ViewCompileResult.statements viewResult), w') /\
    (forall i comp placeholder,
        ViewCompileResult.dependencies viewResult !! i
        = Some (ViewFactoryDependency comp placeholder) ->
        (forall j dep', i < j -> ViewCompileResult.dependencies viewResult !! j = Some dep' ->
                        assignedPlaceholder dep' <> Some placeholder) ->
        moduleUrl (heap w' placeholder) = _ngfactoryModuleUrl (type comp)) /\
    (forall i comp placeholder,
        ViewCompileResult.dependencies viewResult !! i
        = Some (ComponentFactoryDependency comp placeholder) ->
        (forall j dep', i < j -> ViewCompileResult.dependencies viewResult !! j = Some dep' ->
                        assignedPlaceholder dep' <> Some placeholder) ->
        name (heap w' placeholder) = _componentFactoryName comp /\
        moduleUrl (heap w' placeholder) = _ngfactoryModuleUrl comp) /\
    (forall l,
        (forall dep, dep ∈ StylesCompileResult.dependencies styleResult ->
                     StylesCompileDependency.valuePlaceholder dep <> l) ->
        (forall vdep, vdep ∈ ViewCompileResult.dependencies viewResult ->
                      assignedPlaceholder vdep <> Some l) ->
        heap w' l = h3 l).
Proof.
  intros Hstyle Hparse Hview. eexists.
  split; [exact (compileComponent_run _ _ _ _ _ _ _ _ _ _ _ Hstyle Hparse Hview)|].
  simpl. split; [|split].
  - intros i comp p Hi Hlater.
    rewrite (views_last_write _ _ i _ p Hi eq_refl Hlater). simpl. now rewrite alter_same.
  - intros i comp p Hi Hlater.
    rewrite (views_last_write _ _ i _ p Hi eq_refl Hlater). simpl. now rewrite !alter_same.
  - intros l Hstyles Hviews.
    rewrite views_elsewhere by (apply Forall_forall; exact Hviews).
    apply styles_elsewhere, Forall_forall. exact Hstyles.
Qed.

(** X18: references to a compiled component. When [compileTemplates] returns
    a module, the component-factory name of every component of the list is
    among the names exported from it; and the factory module URL of a
    component, which is what a reference to it is resolved to, is the URL of
    that module exactly when the component has the module URL of the first
    component of the list. *)
Theorem compileTemplates_references components (w : World) m w' i componentWithDirs :
  compileTemplates components w = (Return m, w') ->
  components !! i = Some componentWithDirs ->
  (exists statements exportedVars,
      emitted (calls w')
      = emitted (calls w) ++ [(SourceModule.moduleUrl m, statements, exportedVars)] /\
      _componentFactoryName
        (type (NormalizedComponentWithViewDirectives.component componentWithDirs))
      ∈ exportedVars) /\
  (_ngfactoryModuleUrl
     (type (NormalizedComponentWithViewDirectives.component componentWithDirs))
   = SourceModule.moduleUrl m <->
   exists first,
     head components = Some first /\
     moduleUrl (type (NormalizedComponentWithViewDirectives.component componentWithDirs))
     = moduleUrl (type (NormalizedComponentWithViewDirectives.component first))).
Proof.
  intros Hrun Hi.
  apply compileTemplates_Return_inv in Hrun
    as (first & stmts & vs & Hhead & Hvs & Hurl & Hlog).
  pose proof (Forall2_length _ _ _ Hvs) as Hlen.
  split.
  - exists stmts, (exportedNames components vs). split; [exact Hlog|].
    destruct (exportedNames_lookup _ _ _ _ Hlen Hi) as [_ Hname].
    apply list_elem_of_lookup. eauto.
  - rewrite Hurl. split.
    + intros E. exists first. split; [exact Hhead|]. now apply ngfactoryModuleUrl_inj.
    + intros (first' & Hhead' & E). rewrite Hhead' in Hhead. injection Hhead as ->.
      unfold _ngfactoryModuleUrl. now rewrite E.
Qed.

End Composition.

(** ** The further properties on concrete runs *)

Lemma compileTemplates_failures_witness :
  fst (compileTemplates (collaborators := Demo.strict) [Demo.entry Demo.broken] Demo.w0)
  = Throw (Thrown "Template parse errors") /\
  @thrownByCollaborator Demo.ast Demo.strict (Thrown "Template parse errors").
Proof.
  split; [reflexivity|].
  destruct (compileTemplates_failures (collaborators := Demo.strict)
              [Demo.entry Demo.broken] Demo.w0 _ _ eq_refl)
    as [[_ E] | [(pre & bad & post & _ & _ & _ & E) | Hthrown]];
    [discriminate E | discriminate E | exact Hthrown].
Defined.

Lemma compileTemplates_calls_witness :
  exists log statements exportedVars,
    calls (snd (compileTemplates (collaborators := Demo.plain)
                  [Demo.entry Demo.app; Demo.entry Demo.hero] Demo.w0))
    = log ++ [EmitStatements "src/app.ngfactory.ts" statements exportedVars] /\
    length log = 14.
Proof.
  destruct (compileTemplates_calls (collaborators := Demo.plain)
              [Demo.entry Demo.app; Demo.entry Demo.hero] Demo.w0 _ _ eq_refl)
    as (log & statements & exportedVars & Hcalls & Hlen & _).
  exists log, statements, exportedVars. split; [exact Hcalls | exact Hlen].
Defined.

Lemma compileTemplates_statements_witness :
  exists blocks,
    Forall2 (componentBlock (H0 := Demo.plain)) [Demo.entry Demo.app; Demo.entry Demo.hero]
      blocks /\
    length blocks = 2.
Proof.
  destruct (compileTemplates_statements (collaborators := Demo.plain)
              [Demo.entry Demo.app; Demo.entry Demo.hero] Demo.w0 _ _ eq_refl)
    as (blocks & exportedVars & Hblocks & _).
  exists blocks. split; [exact Hblocks|].
  symmetry. exact (Forall2_length _ _ _ Hblocks).
Defined.

Lemma compileTemplates_each_calls_witness :
  exists parsedTemplate styles hostParsed hostStyles,
    calls (snd (compileTemplates_each (collaborators := Demo.plain) ([], [])
                  (Demo.entry Demo.app) Demo.w0))
    = [StyleCompileComponent Demo.app;
       TemplateParse Demo.app "<h1>hi</h1>" [] [] "App";
       ViewCompileComponent Demo.app parsedTemplate styles [];
       CreateHostComponentMeta (type Demo.app) "my-app";
       StyleCompileComponent (Demo.hostMeta (type Demo.app) "my-app");
       TemplateParse (Demo.hostMeta (type Demo.app) "my-app") "<my-app/>" [Demo.app] []
         "App_Host";
       ViewCompileComponent (Demo.hostMeta (type Demo.app) "my-app") hostParsed hostStyles []].
Proof.
  destruct (compileTemplates_each_calls (collaborators := Demo.plain) ([], [])
              (Demo.entry Demo.app) Demo.w0 _ _ eq_refl)
    as (parsedTemplate & styles & hostMeta & hostParsed & hostStyles & Hhost & Hcalls).
  injection Hhost as <-.
  exists parsedTemplate, styles, hostParsed, hostStyles. exact Hcalls.
Defined.

Lemma loadAndCompileStylesheet_failures_witness :
  xhr_get (Collaborators := Demo.linked) "missing.css" = Throw (Thrown "404") /\
  calls (snd (loadAndCompileStylesheet (collaborators := Demo.linked)
                "missing.css" true ".ts" Demo.w0))
  = [XhrGet "missing.css"].
Proof.
  destruct (loadAndCompileStylesheet_failures (collaborators := Demo.linked)
              "missing.css" true ".ts" Demo.w0 _ _ eq_refl)
    as [(Hget & _ & Hcalls) | [(css & h1 & Hget & _) | (css & cr & h1 & Hget & _)]];
    [split; [exact Hget | exact Hcalls] | discriminate Hget | discriminate Hget].
Defined.

Lemma loadAndCompileStylesheet_imports_resolve_witness :
  exists result w' result2 w2',
    loadAndCompileStylesheet (collaborators := Demo.linked) "a.css" true ".ts" Demo.w0
    = (Return result, w') /\
    loadAndCompileStylesheet (collaborators := Demo.linked) "b.css" false ".ts" Demo.w0
    = (Return result2, w2') /\
    SourceModule.moduleUrl (StyleSheetSourceWithImports.source result2)
    = moduleUrl (heap w' 0).
Proof.
  do 4 eexists. split; [reflexivity|]. split; [reflexivity|].
  refine (proj1 (loadAndCompileStylesheet_imports_resolve (collaborators := Demo.linked)
                   "a.css" true ".ts" Demo.w0 _ _ _ _ _ 0 Demo.bCss Demo.w0 _ _
                   eq_refl eq_refl eq_refl eq_refl _) "b.css"%string eq_refl eq_refl).
  intros [|[|j]] dep' Hlt Hj; [lia | injection Hj as <-; discriminate | discriminate].
Defined.

Lemma compileComponent_import_matches_module_witness :
  exists result2 w2',
    loadAndCompileStylesheet (collaborators := Demo.linked) "b.css" false ".foo" Demo.w0
    = (Return result2, w2') /\
    SourceModule.moduleUrl (StyleSheetSourceWithImports.source result2)
    = moduleUrl (heap (snd (_compileComponent (collaborators := Demo.linked)
                              Demo.hero [] [] [] Demo.w0)) 0).
Proof.
  do 2 eexists. split; [reflexivity|].
  refine (compileComponent_import_matches_module (collaborators := Demo.linked)
            Demo.hero [] [] [] Demo.w0 _ _ _ _ _ _ 0 Demo.bCss Demo.w0 _ _
            eq_refl eq_refl eq_refl eq_refl _ _ eq_refl).
  - intros [|[|j]] dep' Hlt Hj; [lia | injection Hj as <-; discriminate | discriminate].
  - intros vdep Hin. simpl in Hin. unfold Demo.viewDeps in Hin.
    repeat (apply elem_of_cons in Hin as [->|Hin]); simpl; try discriminate.
    now apply elem_of_nil in Hin.
Defined.

Lemma resolveStyleStatements_frame_witness :
  exists w',
    _resolveStyleStatements (collaborators := Demo.plain) "src/hero.foo" Demo.heroStyles Demo.w0
    = (Return (StylesCompileResult.statements Demo.heroStyles), w') /\
    heap w' 5 = Demo.h0 5.
Proof.
  destruct (resolveStyleStatements_frame (collaborators := Demo.plain)
              "src/hero.foo" Demo.heroStyles Demo.w0) as (w' & Hrun & _ & _ & Hframe).
  exists w'. split; [exact Hrun|]. apply Hframe.
  intros dep Hin. simpl in Hin.
  repeat (apply elem_of_cons in Hin as [->|Hin]); simpl; try discriminate.
  now apply elem_of_nil in Hin.
Defined.

Lemma compileComponent_result_witness :
  exists w',
    _compileComponent (collaborators := Demo.linked) Demo.hero [] [] [] Demo.w0
    = (Return ("viewFactory_Hero0"%string,
               ["const styles_Hero = [];"%string; "function viewFactory_Hero0() {}"%string]),
       w') /\
    moduleUrl (heap w' 2) = "src/hero.ngfactory.foo" /\
    heap w' 7 = Demo.h0 7.
Proof.
  destruct (compileComponent_result (collaborators := Demo.linked)
              Demo.hero [] [] [] Demo.w0 _ _ _ _ _ _ eq_refl eq_refl eq_refl)
    as (w' & Hrun & Hview & _ & Hframe).
  exists w'. split; [exact Hrun|]. split.
  - apply (Hview 0 Demo.hero 2 eq_refl).
    intros [|[|[|j]]] dep' Hlt Hj; try lia; try discriminate;
      injection Hj as <-; discriminate.
  - apply Hframe.
    + intros dep Hin. simpl in Hin.
      repeat (apply elem_of_cons in Hin as [->|Hin]); simpl; try discriminate.
      now apply elem_of_nil in Hin.
    + intros vdep Hin. simpl in Hin. unfold Demo.viewDeps in Hin.
      repeat (apply elem_of_cons in Hin as [->|Hin]); simpl; try discriminate.
      now apply elem_of_nil in Hin.
Defined.

Lemma compileTemplates_references_witness :
  exists statements exportedVars,
    emitted (calls (snd (compileTemplates (collaborators := Demo.plain)
                           [Demo.entry Demo.app; Demo.entry Demo.hero] Demo.w0)))
    = [("src/app.ngfactory.ts"%string, statements, exportedVars)] /\
    "HeroNgFactory"%string ∈ exportedVars.
Proof.
  destruct (compileTemplates_references (collaborators := Demo.plain)
              [Demo.entry Demo.app; Demo.entry Demo.hero] Demo.w0 _ _ 1 (Demo.entry Demo.hero)
              eq_refl eq_refl) as [(statements & exportedVars & Hlog & Hin) _].
  exists statements, exportedVars. split; [exact Hlog | exact Hin].
Defined.
